(** * rising: datasets and randomised transforms, embedded in Rocq

    A shallow embedding of

    - [rising/loading/dataset.py]: [Dataset.get_subset], [SubsetDataset],
      [CacheDataset], [LazyDataset], [IDManager] and the two ID datasets;
    - [rising/transforms/intensity.py]: [RandomValuePerChannel.forward];
    - the composition pipeline exercised by [tests/transforms/test_compose.py].

    Python objects live in a store ([heap]) addressed by [addr]; an instance
    carries its class and its instance dictionary ([vars(self)]), whose
    entries are references.  Samples and paths are immutable [value]s.
    Exceptions are values of [exn]; a computation returns a [result]. *)

From Stdlib Require Import ZArith String Ascii List QArith Sorted.
From stdpp Require Import gmap strings list fin_maps.

#[local] Set Warnings "-register-all".
#[local] Open Scope string_scope.
#[local] Open Scope list_scope.
#[local] Open Scope Z_scope.

(** ** Python values, exceptions, results *)

Inductive value :=
  | VNone
  | VBool (b : bool)
  | VInt (z : Z)
  | VStr (s : string)
  | VList (l : list value)
  | VDict (d : list (string * value)).

Inductive exn :=
  | TypeError (msg : string)
  | KeyError (key : string)
  | IndexError (msg : string)
  | AssertionError (msg : string)
  | AttributeError (name : string)
  | RecursionError
  | OtherError (name msg : string).

Inductive result (A : Type) :=
  | Ok (a : A)
  | Raise (e : exn).
Arguments Ok {A} a.
Arguments Raise {A} e.

#[export] Instance result_ret : MRet result := @Ok.
#[export] Instance result_bind : MBind result := λ A B f r,
  match r with Ok a => f a | Raise e => Raise e end.
#[export] Instance result_fmap : FMap result := λ A B f r,
  match r with Ok a => Ok (f a) | Raise e => Raise e end.

(** [for x in l: ...] threading a fallible body: all of [l], in order. *)
Fixpoint map_result {A B} (f : A → result B) (l : list A) : result (list B) :=
  match l with
  | [] => Ok []
  | x :: l' => y ← f x; ys ← map_result f l'; Ok (y :: ys)
  end.

(** ** Strings *)

(** [str.lower] on the ASCII letters; the mode strings are ASCII. *)
Definition lower_ascii (c : ascii) : ascii :=
  let n := nat_of_ascii c in
  if ((65 <=? n)%nat && (n <=? 90)%nat)%bool then ascii_of_nat (n + 32) else c.

Fixpoint lower (s : string) : string :=
  match s with
  | EmptyString => EmptyString
  | String c s' => String (lower_ascii c) (lower s')
  end.

Definition startswith (s pre : string) : bool := String.prefix pre s.

Definition endswith (s suf : string) : bool :=
  let n := String.length s in
  let k := String.length suf in
  ((k <=? n)%nat && String.eqb (substring (n - k) k s) suf)%bool.

(** [os.path.join(path, p)] for a relative entry name [p] (POSIX). *)
Definition os_path_join (path p : string) : string :=
  if String.eqb path "" then p
  else if endswith path "/" then (path ++ p)%string
  else (path ++ "/" ++ p)%string.

(** [sorted] on a list of strings: ascending, by code point. *)
Fixpoint insort (x : string) (l : list string) : list string :=
  match l with
  | [] => [x]
  | y :: l' => if String.leb x y then x :: l else y :: insort x l'
  end.

Definition sorted (l : list string) : list string := foldr insort [] l.

(** ** Sequences *)

(** [l[i]] with Python's negative indices. *)
Definition py_index {A} (l : list A) (i : Z) : result A :=
  let n := Z.of_nat (length l) in
  let j := if i <? 0 then i + n else i in
  if (j <? 0) || (n <=? j) then Raise (IndexError "list index out of range")
  else match l !! Z.to_nat j with
       | Some x => Ok x
       | None => Raise (IndexError "list index out of range")
       end.

(** [iter(v)]: what [list.extend(v)] walks through. *)
Fixpoint chars (s : string) : list value :=
  match s with
  | EmptyString => []
  | String c s' => VStr (String c EmptyString) :: chars s'
  end.

Definition py_iter (v : value) : result (list value) :=
  match v with
  | VList l => Ok l
  | VDict d => Ok (map (λ kv, VStr kv.1) d)
  | VStr s => Ok (chars s)
  | VNone => Raise (TypeError "'NoneType' object is not iterable")
  | VBool _ => Raise (TypeError "'bool' object is not iterable")
  | VInt _ => Raise (TypeError "'int' object is not iterable")
  end.

(** [sample[key]] for a string key. *)
Fixpoint assoc (d : list (string * value)) (key : string) : option value :=
  match d with
  | [] => None
  | (k, v) :: d' => if String.eqb k key then Some v else assoc d' key
  end.

Definition subscript (sample : value) (key : string) : result value :=
  match sample with
  | VDict d => match assoc d key with
               | Some v => Ok v
               | None => Raise (KeyError key)
               end
  | VList _ => Raise (TypeError "list indices must be integers or slices, not str")
  | VStr _ => Raise (TypeError "string indices must be integers, not 'str'")
  | _ => Raise (TypeError "object is not subscriptable")
  end.

(** ** The object store *)

Abbreviation addr := nat.
Definition kwargs := list (string * value).
Definition loader := value → kwargs → result value.

Inductive klass :=
  | CacheDataset | LazyDataset | SubsetDataset | CacheDatasetID | LazyDatasetID.

(** The three [__getitem__] function objects of the module. *)
Inductive getitem_fn :=
  | CacheDataset_getitem_fn | LazyDataset_getitem_fn | SubsetDataset_getitem_fn.

(** Keys of the ID cache: the hashable values; [True == 1] and
    [hash(True) == hash(1)]. *)
Inductive hkey := KNone | KInt (z : Z) | KStr (s : string).

#[export] Instance hkey_eq_dec : EqDecision hkey.
Proof. solve_decision. Defined.

#[export] Instance hkey_countable : Countable hkey.
Proof.
  refine (inj_countable'
    (λ k, match k with
          | KNone => inl ()
          | KInt z => inr (inl z)
          | KStr s => inr (inr s)
          end)
    (λ x, match x with
          | inl _ => KNone
          | inr (inl z) => KInt z
          | inr (inr s) => KStr s
          end) _).
  by intros [].
Defined.

(** What a name is bound to: an immutable scalar, a callable, one of the
    module's [__getitem__] functions, or a mutable object in the store. *)
Inductive ref :=
  | Imm (v : value)
  | Fun (f : loader)
  | Getitem (g : getitem_fn)
  | Loc (a : addr).

Inductive object :=
  | OList (items : list value)
  | ODict (d : kwargs)
  | OIdMap (m : gmap hkey Z)
  | OInst (c : klass) (attrs : gmap string ref).

Abbreviation heap := (list object).

(** Store-passing computations that may raise. *)
Definition M (A : Type) : Type := heap → result A * heap.

#[export] Instance M_ret : MRet M := λ A a h, (Ok a, h).
#[export] Instance M_bind : MBind M := λ A B f m h,
  match m h with
  | (Ok a, h') => f a h'
  | (Raise e, h') => (Raise e, h')
  end.

Definition reads {A} (f : heap → result A) : M A := λ h, (f h, h).
Definition raise {A} (e : exn) : M A := λ h, (Raise e, h).
Definition alloc (o : object) : M addr := λ h, (Ok (length h), h ++ [o]).

(** [vars(self)] together with [self.__class__]. *)
Definition instance (h : heap) (self : addr) : result (klass * gmap string ref) :=
  match h !! self with
  | Some (OInst c attrs) => Ok (c, attrs)
  | _ => Raise (TypeError "not an instance")
  end.

Definition getattr (h : heap) (self : addr) (name : string) : result ref :=
  '(_, attrs) ← instance h self;
  match attrs !! name with
  | Some r => Ok r
  | None => Raise (AttributeError name)
  end.

Definition setattr (self : addr) (name : string) (r : ref) : M unit := λ h,
  match h !! self with
  | Some (OInst c attrs) => (Ok (), <[self := OInst c (<[name := r]> attrs)]> h)
  | _ => (Raise (TypeError "not an instance"), h)
  end.

Definition read_list (h : heap) (r : ref) : result (list value) :=
  match r with
  | Loc a => match h !! a with
             | Some (OList l) => Ok l
             | _ => Raise (TypeError "object is not a list")
             end
  | _ => Raise (TypeError "object is not a list")
  end.

Definition read_kwargs (h : heap) (r : ref) : result kwargs :=
  match r with
  | Loc a => match h !! a with
             | Some (ODict d) => Ok d
             | _ => Raise (TypeError "argument after ** must be a mapping")
             end
  | _ => Raise (TypeError "argument after ** must be a mapping")
  end.

Definition read_callable (r : ref) : result loader :=
  match r with
  | Fun f => Ok f
  | _ => Raise (TypeError "object is not callable")
  end.

(** ** Item access: the three [__getitem__] functions and [__len__] *)

(** [CacheDataset.__getitem__]: [self.data[index]]. *)
Definition CacheDataset_getitem (h : heap) (self : addr) (index : Z) : result value :=
  d ← getattr h self "data";
  l ← read_list h d;
  py_index l index.

(** [LazyDataset.__getitem__]:
    [self._load_fn(self.data[index], **self._load_kwargs)]. *)
Definition LazyDataset_getitem (h : heap) (self : addr) (index : Z) : result value :=
  f ← getattr h self "_load_fn";
  d ← getattr h self "data";
  l ← read_list h d;
  x ← py_index l index;
  k ← getattr h self "_load_kwargs";
  kw ← read_kwargs h k;
  load_fn ← read_callable f;
  load_fn x kw.

(** [SubsetDataset.__getitem__]: [self._old_getitem(self, index)].  When
    [_old_getitem] is this very function the call repeats itself with the
    same arguments until the interpreter gives up. *)
Definition SubsetDataset_getitem (h : heap) (self : addr) (index : Z) : result value :=
  g ← getattr h self "_old_getitem";
  match g with
  | Getitem CacheDataset_getitem_fn => CacheDataset_getitem h self index
  | Getitem LazyDataset_getitem_fn => LazyDataset_getitem h self index
  | Getitem SubsetDataset_getitem_fn => Raise RecursionError
  | _ => Raise (TypeError "object is not callable")
  end.

(** [cls.__getitem__], resolved along the class hierarchy. *)
Definition class_getitem (c : klass) : getitem_fn :=
  match c with
  | CacheDataset | CacheDatasetID => CacheDataset_getitem_fn
  | LazyDataset | LazyDatasetID => LazyDataset_getitem_fn
  | SubsetDataset => SubsetDataset_getitem_fn
  end.

(** [self[index]]. *)
Definition getitem (h : heap) (self : addr) (index : Z) : result value :=
  '(c, _) ← instance h self;
  match class_getitem c with
  | CacheDataset_getitem_fn => CacheDataset_getitem h self index
  | LazyDataset_getitem_fn => LazyDataset_getitem h self index
  | SubsetDataset_getitem_fn => SubsetDataset_getitem h self index
  end.

(** [len(self)]: every class returns [len(self.data)]. *)
Definition len (h : heap) (self : addr) : result nat :=
  d ← getattr h self "data";
  l ← read_list h d;
  Ok (length l).

(** ** [SubsetDataset.__init__] and [Dataset.get_subset] *)

(** [for key, val in kwargs.items(): setattr(self, key, val)]. *)
Definition setattrs (self : addr) (kw : gmap string ref) : M unit := λ h,
  match h !! self with
  | Some (OInst c attrs) => (Ok (), <[self := OInst c (kw ∪ attrs)]> h)
  | _ => (Raise (TypeError "not an instance"), h)
  end.

(** A keyword that names a positional parameter of [__init__] cannot be
    bound a second time. *)
Definition bind_check (kw : gmap string ref) : result unit :=
  if decide (is_Some (kw !! "self")) then
    Raise (TypeError "__init__() got multiple values for argument 'self'")
  else if decide (is_Some (kw !! "data")) then
    Raise (TypeError "__init__() got multiple values for argument 'data'")
  else if decide (is_Some (kw !! "old_getitem")) then
    Raise (TypeError "__init__() got multiple values for argument 'old_getitem'")
  else Ok ().

(** [SubsetDataset(data, old_getitem, **kwargs)]. *)
Definition SubsetDataset_init (data : addr) (old_getitem : getitem_fn)
    (kw : gmap string ref) : M addr :=
  self ← alloc (OInst SubsetDataset ∅);
  _ ← reads (λ _, bind_check kw);
  _ ← setattr self "data" (Loc data);
  _ ← setattr self "_old_getitem" (Getitem old_getitem);
  _ ← setattrs self kw;
  mret self.

(** The test [key.startswith("__") and key.endswith("__")]. *)
Definition is_dunder (key : string) : bool :=
  startswith key "__" && endswith key "__".

(** The attributes [get_subset] hands over: not dunder, not ["data"]. *)
Definition subset_kwargs (attrs : gmap string ref) : gmap string ref :=
  filter (λ kv, ¬ is_dunder kv.1 ∧ kv.1 ≠ "data") attrs.

(** [Dataset.get_subset]. *)
Definition get_subset (self : addr) (indices : list Z) : M addr :=
  '(c, attrs) ← reads (λ h, instance h self);
  let kwargs := subset_kwargs attrs in
  let old_getitem := class_getitem c in
  subset_data ← reads (λ h, map_result (getitem h self) indices);
  data ← alloc (OList subset_data);
  SubsetDataset_init data old_getitem kwargs.

(** ** [CacheDataset] and [LazyDataset] *)

Inductive path_arg :=
  | PathList (a : addr)
  | PathDir (d : string).

(** The entries of a list of locations are strings (paths), as the
    signature of [data_path] says. *)
Definition as_path (v : value) : result string :=
  match v with
  | VStr s => Ok s
  | _ => Raise (TypeError "expected str, bytes or os.PathLike object")
  end.

(** [sorted(path)] on a list of paths. *)
Definition py_sorted (l : list value) : result (list value) :=
  ps ← map_result as_path l;
  Ok (map VStr (sorted ps)).

(** [_num_workers is None or _num_workers > 0]. *)
Definition parallel (num_workers : option Z) : bool :=
  match num_workers with
  | None => true
  | Some n => 0 <? n
  end.

Definition workers_ref (num_workers : option Z) : ref :=
  match num_workers with
  | None => Imm VNone
  | Some n => Imm (VInt n)
  end.

Definition read_workers (r : ref) : result (option Z) :=
  match r with
  | Imm VNone => Ok None
  | Imm (VInt n) => Ok (Some n)
  | _ => Raise (TypeError "'>' not supported")
  end.

(** [CacheDataset._add_item]; the list is threaded through, the caller
    owns it. *)
Definition _add_item (data : list value) (item : value) (mode : string)
    : result (list value) :=
  let _mode := lower mode in
  if String.eqb _mode "append" then Ok (data ++ [item])
  else if String.eqb _mode "extend" then xs ← py_iter item; Ok (data ++ xs)
  else Raise (TypeError ("Unknown mode detected: " ++ mode ++ " not supported.")%string).

(** [for sample in _data: self._add_item(data, sample, mode)] over the
    list a worker pool returned. *)
Fixpoint add_items (data : list value) (samples : list value) (mode : string)
    : result (list value) :=
  match samples with
  | [] => Ok data
  | sample :: rest => data' ← _add_item data sample mode; add_items data' rest mode
  end.

(** The same loop over the lazy [map(load_fn, path)]: each sample is
    loaded when the loop asks for it. *)
Fixpoint load_and_add (load : value → result value) (data : list value)
    (path : list value) (mode : string) : result (list value) :=
  match path with
  | [] => Ok data
  | p :: rest =>
      sample ← load p;
      data' ← _add_item data sample mode;
      load_and_add load data' rest mode
  end.

Section Loading.

(** The surroundings: [rising.loading.debug_mode.get_debug_mode()] and
    the file system ([os.path.isdir], [os.listdir]; [None] when the path is
    not a directory). *)
Variable debug_mode : bool.
Variable listdir : string → option (list string).

(** [if not isinstance(path, list): assert os.path.isdir(path); path =
    [os.path.join(path, p) for p in os.listdir(path)]]. *)
Definition list_paths (h : heap) (path : path_arg) : result (list value) :=
  match path with
  | PathList a => read_list h (Loc a)
  | PathDir d =>
      match listdir d with
      | Some names => Ok (map (λ p, VStr (os_path_join d p)) names)
      | None => Raise (AssertionError (d ++ " is not a valid directory")%string)
      end
  end.

(** [CacheDataset._make_dataset]. *)
Definition CacheDataset_make_dataset (h : heap) (self : addr) (path : path_arg)
    (mode : string) : result (list value) :=
  let data := [] in
  path ← list_paths h path;
  path ← py_sorted path;
  f ← getattr h self "_load_fn";
  k ← getattr h self "_load_kwargs";
  kw ← read_kwargs h k;
  load_fn ← read_callable f;
  let load_fn := λ p, load_fn p kw in
  w ← getattr h self "_num_workers";
  nw ← read_workers w;
  if parallel nw then
    _data ← map_result load_fn path;
    add_items data _data mode
  else
    load_and_add load_fn data path mode.

(** [CacheDataset.__init__]; [c] is the class being instantiated. *)
Definition CacheDataset_init (c : klass) (data_path : path_arg) (load_fn : loader)
    (mode : string) (num_workers : option Z) (verbose : bool)
    (load_kwargs : kwargs) : M addr :=
  self ← alloc (OInst c ∅);
  let num_workers :=
    if debug_mode && parallel num_workers then Some 0 else num_workers in
  let verbose := if parallel num_workers && verbose then false else verbose in
  _ ← setattr self "_num_workers" (workers_ref num_workers);
  _ ← setattr self "_verbosity" (Imm (VBool verbose));
  _ ← setattr self "_load_fn" (Fun load_fn);
  kw ← alloc (ODict load_kwargs);
  _ ← setattr self "_load_kwargs" (Loc kw);
  data ← reads (λ h, CacheDataset_make_dataset h self data_path mode);
  d ← alloc (OList data);
  _ ← setattr self "data" (Loc d);
  mret self.

(** [LazyDataset._make_dataset]: the value of [sorted(path)] is dropped
    and [path] itself is returned. *)
Definition LazyDataset_make_dataset (path : path_arg) : M addr :=
  path ← match path with
         | PathList a => mret a
         | PathDir _ => l ← reads (λ h, list_paths h path); alloc (OList l)
         end;
  l ← reads (λ h, read_list h (Loc path));
  _ ← reads (λ _, py_sorted l);
  mret path.

(** [LazyDataset.__init__]. *)
Definition LazyDataset_init (c : klass) (data_path : path_arg) (load_fn : loader)
    (load_kwargs : kwargs) : M addr :=
  self ← alloc (OInst c ∅);
  _ ← setattr self "_load_fn" (Fun load_fn);
  kw ← alloc (ODict load_kwargs);
  _ ← setattr self "_load_kwargs" (Loc kw);
  data ← LazyDataset_make_dataset data_path;
  _ ← setattr self "data" (Loc data);
  mret self.

End Loading.

(** ** [IDManager] *)

(** Hashing a dictionary key. *)
Definition as_key (v : value) : result hkey :=
  match v with
  | VNone => Ok KNone
  | VBool b => Ok (KInt (if b then 1 else 0))
  | VInt z => Ok (KInt z)
  | VStr s => Ok (KStr s)
  | VList _ => Raise (TypeError "unhashable type: 'list'")
  | VDict _ => Raise (TypeError "unhashable type: 'dict'")
  end.

(** [v == id] for a string [id]: only an equal string compares equal. *)
Definition eq_str (v : value) (id : string) : bool :=
  match v with
  | VStr s => String.eqb s id
  | _ => false
  end.

(** The loop [for idx, sample in enumerate(self)].  [Dataset] defines no
    [__iter__], so iteration follows the sequence protocol: [self[0]],
    [self[1]], ... until [IndexError].  The bound [n] counts the accesses
    still allowed; it is [S (len(self.data))] below, and the access at
    [len(self.data)] raises, so the last case is never reached from there
    ([find_loop_bound], [cache_loop_bound]).  [id_key] stands for the
    attribute read [self.id_key], made anew for every sample. *)
Definition iteration_overrun : exn :=
  OtherError "RuntimeError" "iteration did not stop".

(** The dictionary comprehension of [cache_ids]. *)
Fixpoint cache_loop (get : Z → result value) (id_key : result string) (n : nat)
    (idx : Z) (m : gmap hkey Z) : result (gmap hkey Z) :=
  match n with
  | O => Raise iteration_overrun
  | S n' =>
      match get idx with
      | Raise (IndexError _) => Ok m
      | Raise e => Raise e
      | Ok sample =>
          key ← id_key;
          v ← subscript sample key;
          k ← as_key v;
          cache_loop get id_key n' (idx + 1) (<[k := idx]> m)
      end
  end.

(** The loop of [_find_index_iterative]. *)
Fixpoint find_loop (get : Z → result value) (id_key : result string)
    (id : string) (n : nat) (idx : Z) : result Z :=
  match n with
  | O => Raise iteration_overrun
  | S n' =>
      match get idx with
      | Raise (IndexError _) => Raise (KeyError ("ID " ++ id ++ " not found.")%string)
      | Raise e => Raise e
      | Ok sample =>
          key ← id_key;
          v ← subscript sample key;
          if eq_str v id then Ok idx
          else find_loop get id_key id n' (idx + 1)
      end
  end.

Definition iteration_bound (h : heap) (self : addr) : nat :=
  match len h self with
  | Ok n => S n
  | Raise _ => 1%nat
  end.

Definition read_id_key (h : heap) (self : addr) : result string :=
  r ← getattr h self "id_key";
  match r with
  | Imm (VStr s) => Ok s
  | _ => Raise (TypeError "id_key is not a str")
  end.

(** [IDManager.cache_ids]. *)
Definition IDManager_cache_ids (self : addr) : M unit :=
  m ← reads (λ h,
        cache_loop (getitem h self) (read_id_key h self)
          (iteration_bound h self) 0 ∅);
  a ← alloc (OIdMap m);
  setattr self "_cached_ids" (Loc a).

(** [IDManager._find_index_iterative]. *)
Definition IDManager_find_index_iterative (h : heap) (self : addr) (id : string)
    : result Z :=
  find_loop (getitem h self) (read_id_key h self) id (iteration_bound h self) 0.

(** [IDManager.get_index_by_id]. *)
Definition IDManager_get_index_by_id (h : heap) (self : addr) (id : string)
    : result Z :=
  c ← getattr h self "_cached_ids";
  match c with
  | Imm VNone => IDManager_find_index_iterative h self id
  | Loc a =>
      match h !! a with
      | Some (OIdMap m) =>
          match m !! KStr id with
          | Some idx => Ok idx
          | None => Raise (KeyError id)
          end
      | _ => Raise (TypeError "object is not subscriptable")
      end
  | _ => Raise (TypeError "object is not subscriptable")
  end.

(** [IDManager.get_sample_by_id]. *)
Definition IDManager_get_sample_by_id (h : heap) (self : addr) (id : string)
    : result value :=
  idx ← IDManager_get_index_by_id h self id;
  getitem h self idx.

(** The part of [IDManager.__init__] after the call of [super().__init__]. *)
Definition IDManager_init (self : addr) (id_key : string) (cache_ids : bool)
    : M unit :=
  _ ← setattr self "id_key" (Imm (VStr id_key));
  _ ← setattr self "_cached_ids" (Imm VNone);
  if cache_ids then IDManager_cache_ids self else mret ().

Section IDDatasets.

Variable debug_mode : bool.
Variable listdir : string → option (list string).

(** Modelled from the spec: [AbstractMixin] ([rising/__init__.py]) is not
    part of the sources at hand.  The ID datasets "apply this capability on
    top of either loading strategy without altering loading semantics; the
    ID cache is built once at construction": the call of [super().__init__]
    in [IDManager.__init__] runs the loading strategy's initialiser with the
    remaining keyword arguments, then the ID part follows. *)
Definition CacheDatasetID_init (data_path : path_arg) (load_fn : loader)
    (id_key : string) (cache_ids : bool) (mode : string)
    (num_workers : option Z) (verbose : bool) (load_kwargs : kwargs) : M addr :=
  self ← CacheDataset_init debug_mode listdir CacheDatasetID data_path load_fn
           mode num_workers verbose load_kwargs;
  _ ← IDManager_init self id_key cache_ids;
  mret self.

Definition LazyDatasetID_init (data_path : path_arg) (load_fn : loader)
    (id_key : string) (cache_ids : bool) (load_kwargs : kwargs) : M addr :=
  self ← LazyDataset_init listdir LazyDatasetID data_path load_fn load_kwargs;
  _ ← IDManager_init self id_key cache_ids;
  mret self.

End IDDatasets.

(** ** [RandomValuePerChannel.forward]

    A tensor is seen through its slices along dimension 1: [t[:, i]] is
    the [i]-th entry, [t.shape[1]] the length.  The kernel [augment_fn] and
    the sampled property [random_sampler] come from the transform's base
    classes and are parameters here; the kernel writes its result into
    [out] and returns it.  Reading [self.random_sampler] draws a fresh
    value, and what it draws from is up to the parameter object: the state
    of torch's generator, which [torch.random.get_rng_state] returns and
    [torch.random.set_rng_state] puts back, or a state of another kind
    (Python's [random] module, which the docstring of the class names, or
    the object's own attributes).  The state a sampler works on is
    therefore a pair: the state of torch's generator and the rest. *)

Section Sampling.

Variable state : Type.
Variable rand : Type.
Variable chan : Type.
Variable random_sampler : state → rand * state.
Variable augment_fn : chan → rand → chan.
Variable uninit : chan.

(** [torch.empty_like(t)]. *)
Definition empty_like (t : list chan) : list chan := replicate (length t) uninit.

(** [for _i in range(n): rand_value = self.random_sampler;
    out[:, _i] = self.augment_fn(x[:, _i], value=rand_value, out=out[:, _i])],
    from channel [i] on. *)
Fixpoint channel_loop (x out : list chan) (i n : nat) (s : state)
    : list chan * state :=
  match n with
  | O => (out, s)
  | S n' =>
      let '(rand_value, s') := random_sampler s in
      let out' := match x !! i with
                  | Some c => <[i := augment_fn c rand_value]> out
                  | None => out
                  end in
      channel_loop x out' (S i) n' s'
  end.

(** The first [n] values the sampler yields from state [s]. *)
Fixpoint draws (s : state) (n : nat) : list rand :=
  match n with
  | O => []
  | S n' => let '(v, s') := random_sampler s in v :: draws s' n'
  end.

Fixpoint state_after (s : state) (n : nat) : state :=
  match n with
  | O => s
  | S n' => state_after (random_sampler s).2 n'
  end.

(** Channel [i] of [x] combined with the [i]-th value drawn from [s]. *)
Definition per_channel_transform (s : state) (x : list chan) : list chan :=
  zip_with augment_fn x (draws s (length x)).

End Sampling.

Arguments empty_like {chan} uninit t.
Arguments channel_loop {state rand chan} random_sampler augment_fn x out i n s.
Arguments draws {state rand} random_sampler s n.
Arguments state_after {state rand} random_sampler s n.
Arguments per_channel_transform {state rand chan} random_sampler augment_fn s x.

Section RandomValuePerChannel.

Variable rng_state : Type.
Variable ambient : Type.
Variable rand : Type.
Variable chan : Type.
Variable random_sampler : rng_state * ambient → rand * (rng_state * ambient).
Variable augment_fn : chan → rand → chan.
Variable augment_fn_tensor : list chan → rand → list chan.
Variable uninit : chan.

(** [torch.random.get_rng_state()] and [torch.random.set_rng_state(seed)]:
    they read and replace the state of torch's generator and leave the
    rest alone. *)
Definition get_rng_state (s : rng_state * ambient) : rng_state := s.1.

Definition set_rng_state (seed : rng_state) (s : rng_state * ambient)
    : rng_state * ambient :=
  (seed, s.2).

(** The body of [for _key in self.keys] when [per_channel] holds; [seed]
    is the state captured before the loop. *)
Fixpoint per_channel_keys (seed : rng_state) (keys : list string)
    (data : gmap string (list chan)) (s : rng_state * ambient)
    : result (gmap string (list chan) * (rng_state * ambient)) :=
  match keys with
  | [] => Ok (data, s)
  | _key :: rest =>
      let s := set_rng_state seed s in
      match data !! _key with
      | None => Raise (KeyError _key)
      | Some x =>
          let out := empty_like uninit x in
          let '(out, s') :=
            channel_loop random_sampler augment_fn x out 0 (length x) s in
          per_channel_keys seed rest (<[_key := out]> data) s'
      end
  end.

(** The loop of the other branch: one value for all keys. *)
Fixpoint shared_value_keys (rand_value : rand) (keys : list string)
    (data : gmap string (list chan)) : result (gmap string (list chan)) :=
  match keys with
  | [] => Ok data
  | _key :: rest =>
      match data !! _key with
      | None => Raise (KeyError _key)
      | Some x =>
          shared_value_keys rand_value rest
            (<[_key := augment_fn_tensor x rand_value]> data)
      end
  end.

(** [RandomValuePerChannel.forward]. *)
Definition forward (per_channel : bool) (keys : list string)
    (data : gmap string (list chan)) (s : rng_state * ambient)
    : result (gmap string (list chan) * (rng_state * ambient)) :=
  if per_channel then
    let seed := get_rng_state s in
    per_channel_keys seed keys data s
  else
    let '(rand_value, s') := random_sampler s in
    data' ← shared_value_keys rand_value keys data;
    Ok (data', s').

(** The sampler draws from torch's generator and from nothing else: the
    value it yields and the generator state it leaves are those of [f] on
    the generator state it finds. *)
Definition draws_from_torch (f : rng_state → rand * rng_state) : Prop :=
  ∀ t a,
    (random_sampler (t, a)).1 = (f t).1 ∧ (random_sampler (t, a)).2.1 = (f t).2.

End RandomValuePerChannel.

Arguments get_rng_state {rng_state ambient} s.
Arguments set_rng_state {rng_state ambient} seed s.
Arguments per_channel_keys {rng_state ambient rand chan} random_sampler augment_fn
  uninit seed keys data s.
Arguments shared_value_keys {rand chan} augment_fn_tensor rand_value keys data.
Arguments forward {rng_state ambient rand chan} random_sampler augment_fn
  augment_fn_tensor uninit per_channel keys data s.
Arguments draws_from_torch {rng_state ambient rand} random_sampler f.

(** ** [Compose] and [DropoutCompose] *)

Section Compose.

Variable batch : Type.
Variable rng : Type.

(** Modelled from the spec: the "shared pseudo-random source", of which
    nothing is under the sources at hand: one uniform draw from [0, 1) and
    one shuffle of a list of stage indices. *)
Variable uniform : rng → Q * rng.
Variable permute : rng → list nat → list nat * rng.

(** Modelled from the spec: [rising/transforms/compose.py] is not under
    the sources at hand.  "Compose pipeline state: an ordered sequence of
    TransformStage-capable objects; [transform_order], a permutation of
    stage indices, recomputed per invocation when shuffling is enabled,
    fixed (identity) otherwise." *)
Record compose := {
  transforms : list (batch → batch);
  shuffle : bool;
  transform_order : list nat
}.

(** Modelled from the spec: [Compose.__init__]; the order starts as the
    identity. *)
Definition Compose_init (ts : list (batch → batch)) (sh : bool) : compose :=
  {| transforms := ts; shuffle := sh; transform_order := seq 0 (length ts) |}.

(** Modelled from the spec: "invoke each selected stage in order,
    threading the batch through sequentially". *)
Definition run_stages (ts : list (batch → batch)) (order : list nat) (b : batch)
    : batch :=
  foldl (λ b i, match ts !! i with Some t => t b | None => b end) b order.

(** Modelled from the spec: the order of one call, "identity order, or -
    when shuffling is enabled - a permutation drawn from a shared
    pseudo-random source". *)
Definition call_order (c : compose) (s : rng) : list nat * rng :=
  let ident := seq 0 (length (transforms c)) in
  if shuffle c then permute s ident else (ident, s).

(** Modelled from the spec: [Compose.__call__]; "record the realized
    execution order". *)
Definition Compose_call (c : compose) (b : batch) (s : rng)
    : compose * batch * rng :=
  let '(order, s') := call_order c s in
  ({| transforms := transforms c; shuffle := shuffle c; transform_order := order |},
   run_stages (transforms c) order b, s').

(** Modelled from the spec: the "per-stage (or single shared, broadcast
    to all stages)" value of the [dropout] argument. *)
Inductive dropout_arg :=
  | Shared (p : Q)
  | PerStage (ps : list Q).

Record dropout_compose := {
  pipeline : compose;
  dropout : list Q
}.

(** Modelled from the spec: [DropoutCompose.__init__]; "configuration
    error if the probability is neither a single numeric value nor a
    sequence whose length matches the stage count". *)
Definition DropoutCompose_init (ts : list (batch → batch)) (d : dropout_arg)
    (sh : bool) : result dropout_compose :=
  match d with
  | Shared p =>
      Ok {| pipeline := Compose_init ts sh; dropout := replicate (length ts) p |}
  | PerStage ps =>
      if (length ps =? length ts)%nat
      then Ok {| pipeline := Compose_init ts sh; dropout := ps |}
      else Raise (TypeError "dropout must be a float or a sequence matching the transforms")
  end.

(** Modelled from the spec: the gate of one stage.  [compose.py] is not
    under the sources at hand, and the spec leaves open whether the value
    given for a stage is the probability of running it or of leaving it
    out.  The test that is under the sources ([test_dropout_compose])
    decides: with the value [0.0] the single stage is applied to the batch.
    The value is the probability of leaving the stage out: the stage runs
    when its uniform draw [u] from [0, 1) exceeds the value. *)
Definition stage_runs (p u : Q) : bool := negb (Qle_bool u p).

(** Modelled from the spec: "each stage's inclusion in a given call is
    additionally gated by an independent Bernoulli trial parameterized by
    [its value]": one trial per stage of the order, the batch threaded
    through the stages that run. *)
Fixpoint run_gated (ts : list (batch → batch)) (probs : list Q)
    (order : list nat) (b : batch) (s : rng) : batch * rng :=
  match order with
  | [] => (b, s)
  | i :: rest =>
      let '(u, s') := uniform s in
      let b' := if stage_runs (default 0%Q (probs !! i)) u
                then match ts !! i with Some t => t b | None => b end
                else b in
      run_gated ts probs rest b' s'
  end.

(** Modelled from the spec: [DropoutCompose.__call__].  The order is found
    as in [Compose]; the trials decide which stages of it run.
    [test_dropout_compose] reads an order of length 2 after a call over
    two stages with the value [1.0], and sees the stage applied with the
    value [0.0]: the order read after a call holds every stage index,
    whatever the trials gave. *)
Definition DropoutCompose_call (c : dropout_compose) (b : batch) (s : rng)
    : dropout_compose * batch * rng :=
  let p := pipeline c in
  let '(order, s1) := call_order p s in
  let '(b', s2) := run_gated (transforms p) (dropout c) order b s1 in
  ({| pipeline := {| transforms := transforms p; shuffle := shuffle p;
                     transform_order := order |};
      dropout := dropout c |},
   b', s2).

End Compose.

Arguments transforms {batch} c.
Arguments shuffle {batch} c.
Arguments transform_order {batch} c.
Arguments Compose_init {batch} ts sh.
Arguments run_stages {batch} ts order b.
Arguments call_order {batch rng} permute c s.
Arguments Compose_call {batch rng} permute c b s.
Arguments pipeline {batch} d.
Arguments dropout {batch} d.
Arguments DropoutCompose_init {batch} ts d sh.
Arguments run_gated {batch rng} uniform ts probs order b s.
Arguments DropoutCompose_call {batch rng} uniform permute c b s.

(** ** Derived definitions and sample inputs

    Names for intermediate results the statements below speak about, and
    the concrete datasets the statements are tried on. *)

(** The instance dictionary of the subset [get_subset] builds: [data],
    [_old_getitem], then the keyword arguments on top. *)
Definition subset_attrs (c : klass) (attrs : gmap string ref) (data : addr)
    : gmap string ref :=
  subset_kwargs attrs
  ∪ <["_old_getitem" := Getitem (class_getitem c)]> (<["data" := Loc data]> ∅).

(** A [CacheDataset] (at address [1]) over one sample, with an instance
    attribute named [__tag__]. *)
Definition tagged_parent : heap :=
  [OList [VInt 1];
   OInst CacheDataset
     (<["__tag__" := Imm (VInt 7)]> (<["data" := Loc 0%nat]> ∅))].

(** The loading phase of [CacheDataset._make_dataset], once the paths are
    sorted and the loader is closed over its keyword arguments. *)
Definition load_all (load_fn : loader) (kw : kwargs) (nw : option Z)
    (path : list value) (mode : string) : result (list value) :=
  if parallel nw then
    _data ← map_result (λ p, load_fn p kw) path;
    add_items [] _data mode
  else
    load_and_add (λ p, load_fn p kw) [] path mode.

(** [num_workers] and [verbose] after the two adjustments at the head of
    [CacheDataset.__init__]. *)
Definition effective_workers (debug_mode : bool) (num_workers : option Z)
    : option Z :=
  if debug_mode && parallel num_workers then Some 0 else num_workers.

Definition effective_verbose (debug_mode : bool) (num_workers : option Z)
    (verbose : bool) : bool :=
  if parallel (effective_workers debug_mode num_workers) && verbose
  then false else verbose.

(** The instance dictionary of a [CacheDataset] when [_make_dataset] is
    called. *)
Definition cache_attrs (debug_mode : bool) (load_fn : loader)
    (num_workers : option Z) (verbose : bool) (kw : addr) : gmap string ref :=
  <["_load_kwargs" := Loc kw]>
    (<["_load_fn" := Fun load_fn]>
       (<["_verbosity" := Imm (VBool (effective_verbose debug_mode num_workers verbose))]>
          (<["_num_workers" := workers_ref (effective_workers debug_mode num_workers)]> ∅))).

(** The error of the last branch of [_add_item]. *)
Definition unknown_mode (mode : string) : exn :=
  TypeError ("Unknown mode detected: " ++ mode ++ " not supported.")%string.

(** A file system without directories. *)
Definition no_dirs : string → option (list string) := λ _, None.

(** A loader in the usual style: the sample is a mapping that carries the
    path it was read from as its ID. *)
Definition load_sample : loader := λ p _,
  match p with
  | VStr s => Ok (VDict [("id", VStr s); ("data", VInt 0)])
  | _ => Raise (TypeError "expected str, bytes or os.PathLike object")
  end.

(** A loader whose output is a list of two samples. *)
Definition load_pair : loader := λ p _, Ok (VList [p; p]).

(** A store that holds the list [["b"; "a"]] at address [0]. *)
Definition two_paths : heap := [OList [VStr "b"; VStr "a"]].

(** The contents of [self.data]. *)
Definition data_of (h : heap) (self : addr) : result (list value) :=
  d ← getattr h self "data";
  read_list h d.

(** The IDs of the samples in iteration order: [sample[id_key]] for each
    [sample] of [enumerate(self)]. *)
Fixpoint ids_loop (get : Z → result value) (id_key : string) (n : nat) (idx : Z)
    : result (list value) :=
  match n with
  | O => Raise iteration_overrun
  | S n' =>
      match get idx with
      | Raise (IndexError _) => Ok []
      | Raise e => Raise e
      | Ok sample =>
          v ← subscript sample id_key;
          vs ← ids_loop get id_key n' (idx + 1);
          Ok (v :: vs)
      end
  end.

(** The IDs of the samples of the dataset at [self]. *)
Definition dataset_ids (h : heap) (self : addr) (id_key : string)
    : result (list value) :=
  ids_loop (getitem h self) id_key (iteration_bound h self) 0.

(** The dictionary [{k_0: idx, k_1: idx + 1, ...}] added to [m]: a later
    entry replaces an earlier one with the same key. *)
Fixpoint fill (m : gmap hkey Z) (idx : Z) (ks : list hkey) : gmap hkey Z :=
  match ks with
  | [] => m
  | k :: ks' => fill (<[k := idx]> m) (idx + 1) ks'
  end.

(** The attributes after the first two assignments of [IDManager.__init__]. *)
Definition id_attrs (attrs : gmap string ref) (id_key : string) : gmap string ref :=
  <["_cached_ids" := Imm VNone]> (<["id_key" := Imm (VStr id_key)]> attrs).

(** The [CacheDatasetID] over [["b"; "a"]], before the ID part of its
    initialiser has run: the object at address [1]. *)
Definition id_base : heap :=
  (CacheDataset_init false no_dirs CacheDatasetID (PathList 0%nat) load_sample
     "append" (Some 0) false [] two_paths).2.

(** A loader under which every sample carries the same ID. *)
Definition load_same : loader := λ _ _, Ok (VDict [("id", VStr "x")]).

(** A random source whose every draw is one half and whose shuffle keeps
    the order. *)
Definition half_draws : nat → Q * nat := λ s, ((1 # 2)%Q, S s).
Definition keep_order : nat → list nat → list nat * nat := λ s l, (l, s).

(** The parent's items are reached through [CacheDataset.__getitem__]:
    a cache dataset that was given no [_old_getitem] of its own, or a
    subset that took this function over from its parent. *)
Definition cache_access (c : klass) (attrs : gmap string ref) : Prop :=
  (class_getitem c = CacheDataset_getitem_fn ∧ attrs !! "_old_getitem" = None)
  ∨ (c = SubsetDataset
     ∧ attrs !! "_old_getitem" = Some (Getitem CacheDataset_getitem_fn)).

(** The locations [CacheDataset._make_dataset] loads from, in loading
    order: the given ones, or the entries of the directory, sorted. *)
Definition sorted_paths (listdir : string → option (list string)) (h : heap)
    (path : path_arg) : result (list value) :=
  vs ← list_paths listdir h path;
  py_sorted vs.

(** The instance dictionary of a [LazyDataset] when [_make_dataset] is
    called. *)
Definition lazy_attrs (load_fn : loader) (kw : addr) : gmap string ref :=
  <["_load_kwargs" := Loc kw]> (<["_load_fn" := Fun load_fn]> ∅).

(** The [CacheDatasetID] over [["b"; "a"]] whose two samples carry the
    same ID, before the ID part of its initialiser has run. *)
Definition id_same_base : heap :=
  (CacheDataset_init false no_dirs CacheDatasetID (PathList 0%nat) load_same
     "append" (Some 0) false [] two_paths).2.

(** The ID of a sample as the cache stores it: [sample[id_key]], hashed. *)
Definition sample_key (sample : value) (id_key : string) : result hkey :=
  v ← subscript sample id_key;
  as_key v.

(** * Properties *)

(** ** Results, sequences, the store *)

Lemma map_result_Ok {A B} (f : A → result B) (l : list A) (ys : list B) :
  map_result f l = Ok ys ↔ Forall2 (λ x y, f x = Ok y) l ys.
Proof.
  revert ys. induction l as [|x l IH]; intros ys; simpl.
  - split; [intros [= <-]; constructor | by inversion 1].
  - unfold mbind, result_bind. destruct (f x) as [y|e] eqn:Hx.
    + destruct (map_result f l) as [ys'|e] eqn:Hl.
      * split.
        -- intros [= <-]. constructor; [done | by apply IH].
        -- inversion 1 as [|? y' ? ys'' Hy Hys]; subst.
           apply IH in Hys. congruence.
      * split; [done |]. inversion 1 as [|? y' ? ys'' Hy Hys]; subst.
        apply IH in Hys. congruence.
    + split; [done |]. inversion 1; congruence.
Qed.

Lemma map_result_lookup {A B} (f : A → result B) (l : list A) (ys : list B)
    (i : nat) (x : A) :
  map_result f l = Ok ys → l !! i = Some x →
  ∃ y, ys !! i = Some y ∧ f x = Ok y.
Proof.
  intros H%map_result_Ok Hx.
  destruct (Forall2_lookup_l _ _ _ _ _ H Hx) as (y & ? & ?). eauto.
Qed.

Lemma map_result_length {A B} (f : A → result B) (l : list A) (ys : list B) :
  map_result f l = Ok ys → length ys = length l.
Proof. intros H%map_result_Ok. symmetry. by eapply Forall2_length. Qed.

Lemma py_index_nat {A} (l : list A) (i : nat) (x : A) :
  l !! i = Some x → py_index l (Z.of_nat i) = Ok x.
Proof.
  intros H. pose proof (lookup_lt_Some _ _ _ H) as Hlt. unfold py_index.
  destruct (Z.ltb_spec (Z.of_nat i) 0) as [?|_]; [lia|].
  destruct (Z.ltb_spec (Z.of_nat i) 0) as [?|_]; [lia|].
  destruct (Z.leb_spec (Z.of_nat (length l)) (Z.of_nat i)) as [?|_]; [lia|].
  simpl. by rewrite Nat2Z.id, H.
Qed.

Lemma py_index_length {A} (l : list A) :
  py_index l (Z.of_nat (length l)) = Raise (IndexError "list index out of range").
Proof.
  unfold py_index.
  destruct (Z.ltb_spec (Z.of_nat (length l)) 0) as [?|_]; [lia|].
  destruct (Z.ltb_spec (Z.of_nat (length l)) 0) as [?|_]; [lia|].
  destruct (Z.leb_spec (Z.of_nat (length l)) (Z.of_nat (length l))) as [_|?]; [done|lia].
Qed.

Lemma lookup_last (h : heap) (o : object) : (h ++ [o]) !! length h = Some o.
Proof. by apply list_lookup_middle. Qed.

Lemma lookup_alloc2_fst (h : heap) (o1 o2 : object) :
  (h ++ [o1; o2]) !! length h = Some o1.
Proof. by apply list_lookup_middle. Qed.

Lemma lookup_alloc2_snd (h : heap) (o1 o2 : object) :
  (h ++ [o1; o2]) !! S (length h) = Some o2.
Proof.
  rewrite lookup_app_r by lia.
  by replace (S (length h) - length h)%nat with 1%nat by lia.
Qed.

Lemma insert_last (h : heap) (o o' : object) :
  <[length h := o']> (h ++ [o]) = h ++ [o'].
Proof.
  replace (length h) with (length h + 0)%nat by lia.
  by rewrite insert_app_r.
Qed.

Lemma setattr_last (h : heap) (c : klass) (attrs : gmap string ref)
    (name : string) (r : ref) :
  setattr (length h) name r (h ++ [OInst c attrs])
  = (Ok (), h ++ [OInst c (<[name := r]> attrs)]).
Proof. unfold setattr. by rewrite lookup_last, insert_last. Qed.

Lemma setattrs_last (h : heap) (c : klass) (attrs kw : gmap string ref) :
  setattrs (length h) kw (h ++ [OInst c attrs])
  = (Ok (), h ++ [OInst c (kw ∪ attrs)]).
Proof. unfold setattrs. by rewrite lookup_last, insert_last. Qed.

#[local] Arguments instance : simpl never.
#[local] Arguments getattr : simpl never.
#[local] Arguments read_list : simpl never.
#[local] Arguments read_kwargs : simpl never.
#[local] Arguments py_index : simpl never.

Lemma instance_at (h : heap) (a : addr) (c : klass) (attrs : gmap string ref) :
  h !! a = Some (OInst c attrs) → instance h a = Ok (c, attrs).
Proof. unfold instance. by intros ->. Qed.

Lemma instance_inv (h : heap) (a : addr) (c : klass) (attrs : gmap string ref) :
  instance h a = Ok (c, attrs) → h !! a = Some (OInst c attrs).
Proof.
  unfold instance. destruct (h !! a) as [[]|]; try done. by intros [= -> ->].
Qed.

Lemma getattr_at (h : heap) (a : addr) (c : klass) (attrs : gmap string ref)
    (name : string) :
  h !! a = Some (OInst c attrs) →
  getattr h a name = match attrs !! name with
                     | Some r => Ok r
                     | None => Raise (AttributeError name)
                     end.
Proof. intros H. unfold getattr. by rewrite (instance_at _ _ _ _ H). Qed.

Lemma read_list_at (h : heap) (a : addr) (l : list value) :
  h !! a = Some (OList l) → read_list h (Loc a) = Ok l.
Proof. unfold read_list. by intros ->. Qed.

Lemma read_kwargs_at (h : heap) (a : addr) (d : kwargs) :
  h !! a = Some (ODict d) → read_kwargs h (Loc a) = Ok d.
Proof. unfold read_kwargs. by intros ->. Qed.

Lemma alloc_run (o : object) (h : heap) :
  alloc o h = (Ok (length h), h ++ [o]).
Proof. reflexivity. Qed.

(** Unfolding one step of a store-passing computation. *)
Lemma bind_run {A B} (m : M A) (f : A → M B) (h : heap) :
  (m ≫= f) h = match m h with
               | (Ok a, h') => f a h'
               | (Raise e, h') => (Raise e, h')
               end.
Proof. reflexivity. Qed.

(** ** [get_subset] *)

(** What [get_subset] does to the store when every index is valid and no
    attribute carries the name of a parameter of [SubsetDataset.__init__]:
    two objects are appended, the list of extracted samples and the subset. *)
Lemma get_subset_run (h : heap) (self : addr) (indices : list Z) (c : klass)
    (attrs : gmap string ref) (vs : list value) :
  instance h self = Ok (c, attrs) →
  map_result (getitem h self) indices = Ok vs →
  bind_check (subset_kwargs attrs) = Ok () →
  get_subset self indices h
  = (Ok (S (length h)),
     h ++ [OList vs; OInst SubsetDataset (subset_attrs c attrs (length h))]).
Proof.
  intros Hi Hvs Hb. unfold get_subset.
  rewrite bind_run. unfold reads at 1. rewrite Hi. cbn beta iota.
  rewrite bind_run. unfold reads at 1. rewrite Hvs. cbn beta iota.
  rewrite bind_run. unfold alloc at 1. cbn beta iota.
  unfold SubsetDataset_init.
  rewrite bind_run. unfold alloc at 1. cbn beta iota.
  rewrite bind_run. unfold reads at 1. rewrite Hb. cbn beta iota.
  rewrite bind_run, setattr_last.
  rewrite bind_run, setattr_last.
  rewrite bind_run, setattrs_last.
  unfold mret, M_ret. rewrite length_app. simpl.
  rewrite <- app_assoc. simpl. repeat f_equal; lia.
Qed.

Lemma bind_check_ok (attrs : gmap string ref) :
  attrs !! "self" = None → attrs !! "old_getitem" = None →
  bind_check (subset_kwargs attrs) = Ok ().
Proof.
  intros Hs Ho. unfold bind_check, subset_kwargs.
  assert (∀ k, attrs !! k = None →
    ¬ is_Some (filter (λ kv : string * ref, ¬ is_dunder kv.1 ∧ kv.1 ≠ "data")
                 attrs !! k)) as Hnone.
  { intros k Hk [x [Hx _]%map_lookup_filter_Some]. congruence. }
  rewrite decide_False by auto.
  rewrite decide_False.
  2:{ intros [x [_ [_ Hx]]%map_lookup_filter_Some]. by apply Hx. }
  by rewrite decide_False by auto.
Qed.

Lemma get_subset_inv (h h' : heap) (self sub : addr) (indices : list Z) :
  get_subset self indices h = (Ok sub, h') →
  ∃ c attrs vs,
    instance h self = Ok (c, attrs)
    ∧ map_result (getitem h self) indices = Ok vs
    ∧ bind_check (subset_kwargs attrs) = Ok ().
Proof.
  unfold get_subset. rewrite bind_run. unfold reads at 1.
  destruct (instance h self) as [[c attrs]|e] eqn:Hi; [|done].
  cbn beta iota. rewrite bind_run. unfold reads at 1.
  destruct (map_result (getitem h self) indices) as [vs|e] eqn:Hvs; [|done].
  cbn beta iota. rewrite bind_run. unfold alloc at 1. cbn beta iota.
  unfold SubsetDataset_init. rewrite bind_run. unfold alloc at 1. cbn beta iota.
  rewrite bind_run. unfold reads at 1.
  destruct (bind_check (subset_kwargs attrs)) as [[]|e] eqn:Hb; [|done].
  intros _. by exists c, attrs, vs.
Qed.

Lemma subset_attrs_inherited (c : klass) (attrs : gmap string ref) (d : addr)
    (key : string) (r : ref) :
  attrs !! key = Some r → is_dunder key = false → key ≠ "data" →
  subset_attrs c attrs d !! key = Some r.
Proof.
  intros Hk Hd Hn. unfold subset_attrs, subset_kwargs.
  apply lookup_union_Some_l, map_lookup_filter_Some. split; [done|].
  simpl. split; [|done]. rewrite Hd. by intros [].
Qed.

Lemma subset_attrs_data (c : klass) (attrs : gmap string ref) (d : addr) :
  subset_attrs c attrs d !! "data" = Some (Loc d).
Proof.
  unfold subset_attrs, subset_kwargs. rewrite lookup_union_r.
  - by rewrite lookup_insert_ne, lookup_insert_eq.
  - apply map_lookup_filter_None. right. intros x _ [_ Hx]. by apply Hx.
Qed.

Lemma subset_attrs_old_getitem (c : klass) (attrs : gmap string ref) (d : addr) :
  attrs !! "_old_getitem" = None →
  subset_attrs c attrs d !! "_old_getitem" = Some (Getitem (class_getitem c)).
Proof.
  intros Hn. unfold subset_attrs, subset_kwargs. rewrite lookup_union_r.
  - by rewrite lookup_insert_eq.
  - apply map_lookup_filter_None. by left.
Qed.

(** On a parent whose item access is [CacheDataset.__getitem__], the
    subset returns the extracted samples: [subset[k] == parent[I[k]]]. *)
Lemma get_subset_cache_getitem (h h' : heap) (self sub : addr) (indices : list Z)
    (c : klass) (attrs : gmap string ref) (k : nat) (idx : Z) :
  instance h self = Ok (c, attrs) →
  class_getitem c = CacheDataset_getitem_fn →
  attrs !! "_old_getitem" = None →
  get_subset self indices h = (Ok sub, h') →
  indices !! k = Some idx →
  getitem h' sub (Z.of_nat k) = getitem h self idx.
Proof.
  intros Hi Hc Hn Hrun Hk.
  destruct (get_subset_inv _ _ _ _ _ Hrun) as (c' & attrs' & vs & Hi' & Hvs & Hb).
  rewrite Hi in Hi'. injection Hi' as <- <-.
  rewrite (get_subset_run _ _ _ _ _ _ Hi Hvs Hb) in Hrun.
  injection Hrun as <- <-.
  destruct (map_result_lookup _ _ _ _ _ Hvs Hk) as (v & Hv & ->).
  set (o := OInst SubsetDataset (subset_attrs c attrs (length h))).
  assert ((h ++ [OList vs; o]) !! S (length h) = Some o) as Hsub.
  { apply lookup_alloc2_snd. }
  assert ((h ++ [OList vs; o]) !! length h = Some (OList vs)) as Hdata
    by apply lookup_alloc2_fst.
  unfold getitem. rewrite (instance_at _ _ _ _ Hsub). simpl.
  unfold SubsetDataset_getitem. rewrite (getattr_at _ _ _ _ _ Hsub).
  rewrite subset_attrs_old_getitem by done. rewrite Hc. simpl.
  unfold CacheDataset_getitem. rewrite (getattr_at _ _ _ _ _ Hsub).
  rewrite subset_attrs_data. simpl. rewrite (read_list_at _ _ _ Hdata). simpl.
  by apply py_index_nat.
Qed.




(** ** Construction of the loading datasets *)

Lemma setattr_at (h t : heap) (c : klass) (attrs : gmap string ref)
    (name : string) (r : ref) :
  setattr (length h) name r (h ++ OInst c attrs :: t)
  = (Ok (), h ++ OInst c (<[name := r]> attrs) :: t).
Proof.
  unfold setattr. rewrite list_lookup_middle by done.
  replace (length h) with (length h + 0)%nat at 1 by lia.
  by rewrite insert_app_r.
Qed.

Lemma cache_attrs_load_fn debug_mode load_fn num_workers verbose kw :
  cache_attrs debug_mode load_fn num_workers verbose kw !! "_load_fn"
  = Some (Fun load_fn).
Proof.
  unfold cache_attrs. rewrite lookup_insert_ne by done. apply lookup_insert_eq.
Qed.

Lemma cache_attrs_load_kwargs debug_mode load_fn num_workers verbose kw :
  cache_attrs debug_mode load_fn num_workers verbose kw !! "_load_kwargs"
  = Some (Loc kw).
Proof. unfold cache_attrs. by rewrite lookup_insert_eq. Qed.

Lemma cache_attrs_num_workers debug_mode load_fn num_workers verbose kw :
  cache_attrs debug_mode load_fn num_workers verbose kw !! "_num_workers"
  = Some (workers_ref (effective_workers debug_mode num_workers)).
Proof.
  unfold cache_attrs. rewrite !lookup_insert_ne by done. apply lookup_insert_eq.
Qed.

Lemma read_workers_ref (nw : option Z) : read_workers (workers_ref nw) = Ok nw.
Proof. by destruct nw. Qed.

Lemma list_paths_ext (listdir : string → option (list string)) (h t : heap)
    (path : path_arg) (vs : list value) :
  list_paths listdir h path = Ok vs → list_paths listdir (h ++ t) path = Ok vs.
Proof.
  destruct path as [a|d]; simpl; [|done].
  unfold read_list. destruct (h !! a) as [o|] eqn:Ha; [|done].
  by rewrite (lookup_app_l_Some _ _ _ _ Ha).
Qed.

Lemma CacheDataset_init_run (debug_mode : bool)
    (listdir : string → option (list string)) (c : klass) (path : path_arg)
    (load_fn : loader) (mode : string) (num_workers : option Z) (verbose : bool)
    (kw : kwargs) (h : heap) (vs ps : list value) :
  list_paths listdir h path = Ok vs →
  py_sorted vs = Ok ps →
  CacheDataset_init debug_mode listdir c path load_fn mode num_workers verbose kw h
  = let attrs := cache_attrs debug_mode load_fn num_workers verbose (S (length h)) in
    match load_all load_fn kw (effective_workers debug_mode num_workers) ps mode with
    | Ok data =>
        (Ok (length h),
         h ++ [OInst c (<["data" := Loc (S (S (length h)))]> attrs);
               ODict kw; OList data])
    | Raise e => (Raise e, h ++ [OInst c attrs; ODict kw])
    end.
Proof.
  intros Hp Hs. unfold CacheDataset_init.
  rewrite bind_run. unfold alloc at 1. cbn beta iota.
  rewrite bind_run, setattr_at.
  rewrite bind_run, setattr_at.
  rewrite bind_run, setattr_at.
  rewrite bind_run. unfold alloc at 1. cbn beta iota.
  rewrite <- app_assoc. cbn [app].
  rewrite length_app. cbn [length]. rewrite Nat.add_1_r.
  rewrite bind_run, setattr_at.
  fold (effective_workers debug_mode num_workers).
  fold (effective_verbose debug_mode num_workers verbose).
  fold (cache_attrs debug_mode load_fn num_workers verbose (S (length h))).
  set (attrs := cache_attrs debug_mode load_fn num_workers verbose (S (length h))).
  set (h4 := h ++ [OInst c attrs; ODict kw]).
  assert (h4 !! length h = Some (OInst c attrs)) as Hself
    by apply lookup_alloc2_fst.
  assert (h4 !! S (length h) = Some (ODict kw)) as Hkw
    by apply lookup_alloc2_snd.
  assert (CacheDataset_make_dataset listdir h4 (length h) path mode
          = load_all load_fn kw (effective_workers debug_mode num_workers) ps mode)
    as Hmake.
  { assert (list_paths listdir h4 path = Ok vs) as Hp4
      by by apply list_paths_ext.
    unfold CacheDataset_make_dataset.
    rewrite Hp4. cbn [mbind result_bind].
    rewrite Hs. cbn [mbind result_bind].
    rewrite !(getattr_at _ _ _ _ _ Hself). unfold attrs.
    rewrite cache_attrs_load_fn, cache_attrs_load_kwargs, cache_attrs_num_workers.
    cbn [mbind result_bind].
    rewrite (read_kwargs_at _ _ _ Hkw). cbn [mbind result_bind read_callable].
    rewrite read_workers_ref. cbn [mbind result_bind].
    reflexivity. }
  rewrite bind_run. unfold reads at 1. rewrite Hmake.
  destruct (load_all load_fn kw (effective_workers debug_mode num_workers) ps mode)
    as [data|e]; [|done].
  cbn beta iota zeta.
  rewrite bind_run. unfold alloc at 1. cbn beta iota.
  unfold h4. rewrite <- app_assoc. cbn [app].
  rewrite bind_run, setattr_at. unfold mret, M_ret.
  rewrite length_app. cbn [length]. repeat f_equal. lia.
Qed.

Lemma add_item_append (data : list value) (item : value) (mode : string) :
  lower mode = "append" → _add_item data item mode = Ok (data ++ [item]).
Proof. unfold _add_item. by intros ->. Qed.

Lemma add_item_extend (data : list value) (item : value) (mode : string) :
  lower mode = "extend" →
  _add_item data item mode = xs ← py_iter item; Ok (data ++ xs).
Proof. unfold _add_item. by intros ->. Qed.

Lemma add_item_unknown (data : list value) (item : value) (mode : string) :
  lower mode ≠ "append" → lower mode ≠ "extend" →
  _add_item data item mode = Raise (unknown_mode mode).
Proof.
  intros Ha He. unfold _add_item.
  destruct (String.eqb_spec (lower mode) "append"); [done|].
  by destruct (String.eqb_spec (lower mode) "extend").
Qed.

Section LoadAll.

Variable load_fn : loader.
Variable kw : kwargs.
Variable mode : string.

Lemma add_items_append (data us : list value) :
  lower mode = "append" → add_items data us mode = Ok (data ++ us).
Proof.
  intros Hm. revert data. induction us as [|u us IH]; intros data; simpl.
  - by rewrite app_nil_r.
  - rewrite add_item_append by done. cbn [mbind result_bind].
    rewrite IH. by rewrite <- app_assoc.
Qed.

Lemma add_items_extend (data us : list value) (ls : list (list value)) :
  lower mode = "extend" →
  Forall2 (λ u l, py_iter u = Ok l) us ls →
  add_items data us mode = Ok (data ++ concat ls).
Proof.
  intros Hm Hls. revert data.
  induction Hls as [|u l us ls Hu _ IH]; intros data; simpl.
  - by rewrite app_nil_r.
  - rewrite add_item_extend by done. rewrite Hu. cbn [mbind result_bind].
    rewrite IH. by rewrite <- app_assoc.
Qed.

Lemma load_and_add_append (data ps us : list value) :
  lower mode = "append" →
  Forall2 (λ p u, load_fn p kw = Ok u) ps us →
  load_and_add (λ p, load_fn p kw) data ps mode = Ok (data ++ us).
Proof.
  intros Hm Hus. revert data.
  induction Hus as [|p u ps us Hp _ IH]; intros data; simpl.
  - by rewrite app_nil_r.
  - rewrite Hp. cbn [mbind result_bind].
    rewrite add_item_append by done. cbn [mbind result_bind].
    rewrite IH. by rewrite <- app_assoc.
Qed.

Lemma load_and_add_extend (data ps us : list value) (ls : list (list value)) :
  lower mode = "extend" →
  Forall2 (λ p u, load_fn p kw = Ok u) ps us →
  Forall2 (λ u l, py_iter u = Ok l) us ls →
  load_and_add (λ p, load_fn p kw) data ps mode = Ok (data ++ concat ls).
Proof.
  intros Hm Hus. revert data ls.
  induction Hus as [|p u ps us Hp _ IH]; intros data ls Hls;
    inversion Hls as [|? l ? ls' Hu Hls']; subst; simpl.
  - by rewrite app_nil_r.
  - rewrite Hp. cbn [mbind result_bind].
    rewrite add_item_extend by done. rewrite Hu. cbn [mbind result_bind].
    rewrite (IH _ _ Hls'). by rewrite <- app_assoc.
Qed.

Lemma load_all_append (nw : option Z) (ps us : list value) :
  lower mode = "append" →
  Forall2 (λ p u, load_fn p kw = Ok u) ps us →
  load_all load_fn kw nw ps mode = Ok us.
Proof.
  intros Hm Hus. unfold load_all. destruct (parallel nw).
  - apply map_result_Ok in Hus. rewrite Hus. cbn [mbind result_bind].
    by rewrite add_items_append.
  - by rewrite (load_and_add_append [] ps us).
Qed.

Lemma load_all_extend (nw : option Z) (ps us : list value)
    (ls : list (list value)) :
  lower mode = "extend" →
  Forall2 (λ p u, load_fn p kw = Ok u) ps us →
  Forall2 (λ u l, py_iter u = Ok l) us ls →
  load_all load_fn kw nw ps mode = Ok (concat ls).
Proof.
  intros Hm Hus Hls. unfold load_all. destruct (parallel nw).
  - apply map_result_Ok in Hus. rewrite Hus. cbn [mbind result_bind].
    by rewrite (add_items_extend [] us ls).
  - by rewrite (load_and_add_extend [] ps us ls).
Qed.

Lemma load_all_unknown (nw : option Z) (ps us : list value) :
  lower mode ≠ "append" → lower mode ≠ "extend" →
  ps ≠ [] →
  Forall2 (λ p u, load_fn p kw = Ok u) ps us →
  load_all load_fn kw nw ps mode = Raise (unknown_mode mode).
Proof.
  intros Ha He Hne Hus. unfold load_all. destruct (parallel nw).
  - pose proof Hus as Hm%map_result_Ok. rewrite Hm. cbn [mbind result_bind].
    destruct Hus as [|p u ps us _ _]; [done|]. simpl.
    by rewrite add_item_unknown.
  - destruct Hus as [|p u ps us Hp _]; [done|]. simpl.
    rewrite Hp. cbn [mbind result_bind]. by rewrite add_item_unknown.
Qed.

End LoadAll.

Lemma add_items_mode_ext (m1 m2 : string) :
  (∀ data item, _add_item data item m1 = _add_item data item m2) →
  ∀ samples data, add_items data samples m1 = add_items data samples m2.
Proof.
  intros H samples. induction samples as [|x samples IH]; intros data; simpl; [done|].
  rewrite H. destruct (_add_item data x m2); simpl; [apply IH | done].
Qed.

Lemma load_and_add_mode_ext (load : value → result value) (m1 m2 : string) :
  (∀ data item, _add_item data item m1 = _add_item data item m2) →
  ∀ path data, load_and_add load data path m1 = load_and_add load data path m2.
Proof.
  intros H path. induction path as [|p path IH]; intros data; simpl; [done|].
  destruct (load p); simpl; [|done].
  rewrite H. destruct (_add_item data a m2); simpl; [apply IH | done].
Qed.

Lemma make_dataset_mode_ext (listdir : string → option (list string)) (h : heap)
    (self : addr) (path : path_arg) (m1 m2 : string) :
  (∀ data item, _add_item data item m1 = _add_item data item m2) →
  CacheDataset_make_dataset listdir h self path m1
  = CacheDataset_make_dataset listdir h self path m2.
Proof.
  intros H. unfold CacheDataset_make_dataset.
  repeat match goal with
         | |- (?m ≫= _) = (?m ≫= _) =>
             destruct m; cbn [mbind result_bind]; [|reflexivity]
         end.
  destruct (parallel _).
  - destruct (map_result _ _); cbn [mbind result_bind]; [|done].
    by apply add_items_mode_ext.
  - by apply load_and_add_mode_ext.
Qed.

Lemma CacheDataset_init_mode_ext (debug_mode : bool)
    (listdir : string → option (list string)) (c : klass) (path : path_arg)
    (load_fn : loader) (m1 m2 : string) (num_workers : option Z) (verbose : bool)
    (kw : kwargs) (h : heap) :
  (∀ data item, _add_item data item m1 = _add_item data item m2) →
  CacheDataset_init debug_mode listdir c path load_fn m1 num_workers verbose kw h
  = CacheDataset_init debug_mode listdir c path load_fn m2 num_workers verbose kw h.
Proof.
  intros H. unfold CacheDataset_init.
  rewrite !bind_run, !alloc_run. cbn beta iota.
  do 3 (rewrite !bind_run, !setattr_at).
  rewrite !bind_run, !alloc_run. cbn beta iota.
  rewrite <- !app_assoc. cbn [app].
  rewrite !bind_run, !setattr_at.
  rewrite !bind_run. unfold reads.
  by rewrite (make_dataset_mode_ext _ _ _ _ m1 m2 H).
Qed.

(** A dataset built by [CacheDataset.__init__] holds the list the loading
    phase returned. *)
Lemma CacheDataset_init_ok (debug_mode : bool)
    (listdir : string → option (list string)) (c : klass) (path : path_arg)
    (load_fn : loader) (mode : string) (num_workers : option Z) (verbose : bool)
    (kw : kwargs) (h : heap) (vs ps data : list value) :
  class_getitem c = CacheDataset_getitem_fn →
  list_paths listdir h path = Ok vs →
  py_sorted vs = Ok ps →
  load_all load_fn kw (effective_workers debug_mode num_workers) ps mode = Ok data →
  ∃ self h',
    CacheDataset_init debug_mode listdir c path load_fn mode num_workers verbose kw h
    = (Ok self, h')
    ∧ len h' self = Ok (length data)
    ∧ ∀ i x, data !! i = Some x → getitem h' self (Z.of_nat i) = Ok x.
Proof.
  intros Hc Hp Hs Hl.
  rewrite (CacheDataset_init_run _ _ _ _ _ _ _ _ _ _ _ _ Hp Hs). cbn zeta.
  rewrite Hl.
  set (attrs := <["data" := Loc (S (S (length h)))]> _).
  set (h' := h ++ _).
  assert (h' !! length h = Some (OInst c attrs)) as Hself
    by by apply list_lookup_middle.
  assert (h' !! S (S (length h)) = Some (OList data)) as Hdata.
  { unfold h'. rewrite lookup_app_r by lia.
    by replace (S (S (length h)) - length h)%nat with 2%nat by lia. }
  assert (attrs !! "data" = Some (Loc (S (S (length h))))) as Hattr
    by apply lookup_insert_eq.
  exists (length h), h'. split; [done|]. split.
  - unfold len. rewrite (getattr_at _ _ _ _ _ Hself), Hattr.
    cbn [mbind result_bind]. by rewrite (read_list_at _ _ _ Hdata).
  - intros i x Hi. unfold getitem. rewrite (instance_at _ _ _ _ Hself).
    cbn [mbind result_bind]. rewrite Hc.
    unfold CacheDataset_getitem. rewrite (getattr_at _ _ _ _ _ Hself), Hattr.
    cbn [mbind result_bind]. rewrite (read_list_at _ _ _ Hdata).
    cbn [mbind result_bind]. by apply py_index_nat.
Qed.

(** C4: a [CacheDataset] built with mode ["append"] from the outputs [us]
    the loader gives on the sorted paths has [len] equal to their number
    and holds the [i]-th output at index [i]; built with mode ["extend"]
    from outputs that iterate to [ls], it has [len] equal to the sum of
    their sizes and holds their elements flattened in order. *)
Theorem CacheDataset_append_extend_contents (debug_mode : bool)
    (listdir : string → option (list string)) (c : klass) (path : path_arg)
    (load_fn : loader) (num_workers : option Z) (verbose : bool)
    (kw : kwargs) (h : heap) (vs ps us : list value) :
  class_getitem c = CacheDataset_getitem_fn →
  list_paths listdir h path = Ok vs →
  py_sorted vs = Ok ps →
  Forall2 (λ p u, load_fn p kw = Ok u) ps us →
  (∃ self h',
     CacheDataset_init debug_mode listdir c path load_fn "append" num_workers
       verbose kw h = (Ok self, h')
     ∧ length us = length ps
     ∧ len h' self = Ok (length us)
     ∧ ∀ i u, us !! i = Some u → getitem h' self (Z.of_nat i) = Ok u)
  ∧ (∀ ls, Forall2 (λ u l, py_iter u = Ok l) us ls →
       ∃ self h',
         CacheDataset_init debug_mode listdir c path load_fn "extend" num_workers
           verbose kw h = (Ok self, h')
         ∧ len h' self = Ok (list_sum (map length ls))
         ∧ ∀ j x, concat ls !! j = Some x → getitem h' self (Z.of_nat j) = Ok x).
Proof.
  intros Hc Hp Hs Hus. split.
  - destruct (CacheDataset_init_ok debug_mode listdir c path load_fn "append"
                num_workers verbose kw h vs ps us Hc Hp Hs)
      as (self & h' & Hrun & Hlen & Hget).
    { by apply load_all_append. }
    exists self, h'. repeat split; try done.
    symmetry. by eapply Forall2_length.
  - intros ls Hls.
    destruct (CacheDataset_init_ok debug_mode listdir c path load_fn "extend"
                num_workers verbose kw h vs ps (concat ls) Hc Hp Hs)
      as (self & h' & Hrun & Hlen & Hget).
    { by apply (load_all_extend _ _ _ _ ps us ls). }
    exists self, h'. repeat split; try done.
    by rewrite <- length_concat.
Qed.

Lemma CacheDataset_append_extend_contents_witness :
  let us := [VList [VStr "a"; VStr "a"]; VList [VStr "b"; VStr "b"]] in
  (∃ self h',
     CacheDataset_init false no_dirs CacheDataset (PathList 0%nat) load_pair
       "append" (Some 0) false [] two_paths = (Ok self, h')
     ∧ length us = length [VStr "a"; VStr "b"]
     ∧ len h' self = Ok (length us)
     ∧ ∀ i u, us !! i = Some u → getitem h' self (Z.of_nat i) = Ok u)
  ∧ (∀ ls, Forall2 (λ u l, py_iter u = Ok l) us ls →
       ∃ self h',
         CacheDataset_init false no_dirs CacheDataset (PathList 0%nat) load_pair
           "extend" (Some 0) false [] two_paths = (Ok self, h')
         ∧ len h' self = Ok (list_sum (map length ls))
         ∧ ∀ j x, concat ls !! j = Some x → getitem h' self (Z.of_nat j) = Ok x).
Proof.
  apply (CacheDataset_append_extend_contents false no_dirs CacheDataset
           (PathList 0%nat) load_pair (Some 0) false [] two_paths
           [VStr "b"; VStr "a"] [VStr "a"; VStr "b"]);
    [reflexivity | reflexivity | reflexivity | repeat constructor].
Defined.

(** C5, as amended: when the lower-cased mode is neither ["append"] nor
    ["extend"], there is at least one sample location and the loader loads
    every location, construction fails with the [TypeError] of
    [_add_item]. *)
Theorem CacheDataset_unknown_mode (debug_mode : bool)
    (listdir : string → option (list string)) (c : klass) (path : path_arg)
    (load_fn : loader) (mode : string) (num_workers : option Z) (verbose : bool)
    (kw : kwargs) (h : heap) (vs ps us : list value) :
  lower mode ≠ "append" → lower mode ≠ "extend" →
  list_paths listdir h path = Ok vs →
  py_sorted vs = Ok ps →
  ps ≠ [] →
  Forall2 (λ p u, load_fn p kw = Ok u) ps us →
  ∃ h',
    CacheDataset_init debug_mode listdir c path load_fn mode num_workers verbose kw h
    = (Raise (TypeError ("Unknown mode detected: " ++ mode ++ " not supported.")%string),
       h').
Proof.
  intros Ha He Hp Hs Hne Hus.
  rewrite (CacheDataset_init_run _ _ _ _ _ _ _ _ _ _ _ _ Hp Hs). cbn zeta.
  rewrite (load_all_unknown _ _ _ _ ps us) by done.
  eexists. reflexivity.
Qed.

Lemma CacheDataset_unknown_mode_witness :
  ∃ h',
    CacheDataset_init false no_dirs CacheDataset (PathList 0%nat) load_sample
      "stack" None false [] two_paths
    = (Raise (TypeError "Unknown mode detected: stack not supported."), h').
Proof.
  apply (CacheDataset_unknown_mode false no_dirs CacheDataset (PathList 0%nat)
           load_sample "stack" None false [] two_paths
           [VStr "b"; VStr "a"] [VStr "a"; VStr "b"]
           [VDict [("id", VStr "a"); ("data", VInt 0)];
            VDict [("id", VStr "b"); ("data", VInt 0)]]);
    [discriminate | discriminate | reflexivity | reflexivity | discriminate
    | repeat constructor].
Defined.

(** C5, as stated, fails twice: ["APPEND"] is a value other than
    ["append"] and ["extend"] and the dataset is built, and with no sample
    location at all any mode is accepted, since [_add_item] is never
    called. *)
Lemma CacheDataset_mode_not_rejected :
  "APPEND" ≠ "append" ∧ "APPEND" ≠ "extend"
  ∧ (CacheDataset_init false no_dirs CacheDataset (PathList 0%nat) load_sample
       "APPEND" (Some 0) false [] two_paths).1 = Ok 1%nat
  ∧ "stack" ≠ "append" ∧ "stack" ≠ "extend"
  ∧ (CacheDataset_init false no_dirs CacheDataset (PathList 0%nat) load_sample
       "stack" (Some 0) false [] [OList []]).1 = Ok 1%nat.
Proof. repeat split; try discriminate; by vm_compute. Qed.

(** C10: a mode whose lower-cased form is ["append"] or ["extend"] builds
    the very dataset the lower-cased mode builds, item by item and as a
    whole, and [_add_item] never answers it with the unknown-mode error. *)
Theorem CacheDataset_mode_case_insensitive (debug_mode : bool)
    (listdir : string → option (list string)) (c : klass) (path : path_arg)
    (load_fn : loader) (mode : string) (num_workers : option Z) (verbose : bool)
    (kw : kwargs) (h : heap) :
  lower mode = "append" ∨ lower mode = "extend" →
  CacheDataset_init debug_mode listdir c path load_fn mode num_workers verbose kw h
  = CacheDataset_init debug_mode listdir c path load_fn (lower mode) num_workers
      verbose kw h
  ∧ ∀ data item,
      _add_item data item mode = _add_item data item (lower mode)
      ∧ _add_item data item mode
        ≠ Raise (TypeError ("Unknown mode detected: " ++ mode ++ " not supported.")%string).
Proof.
  intros Hm.
  assert (∀ data item, _add_item data item mode = _add_item data item (lower mode))
    as Hext.
  { intros data item. destruct Hm as [Hm|Hm].
    - rewrite (add_item_append _ _ mode Hm). rewrite Hm. reflexivity.
    - rewrite (add_item_extend _ _ mode Hm). rewrite Hm. reflexivity. }
  split; [by apply CacheDataset_init_mode_ext|].
  intros data item. split; [apply Hext|].
  destruct Hm as [Hm|Hm].
  - by rewrite (add_item_append _ _ mode Hm).
  - rewrite (add_item_extend _ _ mode Hm).
    destruct item; cbn; discriminate.
Qed.

Lemma CacheDataset_mode_case_insensitive_witness :
  CacheDataset_init false no_dirs CacheDataset (PathList 0%nat) load_pair
    "Extend" None true [] two_paths
  = CacheDataset_init false no_dirs CacheDataset (PathList 0%nat) load_pair
      (lower "Extend") None true [] two_paths
  ∧ ∀ data item,
      _add_item data item "Extend" = _add_item data item (lower "Extend")
      ∧ _add_item data item "Extend"
        ≠ Raise (TypeError ("Unknown mode detected: " ++ "Extend" ++ " not supported.")%string).
Proof.
  apply (CacheDataset_mode_case_insensitive false no_dirs CacheDataset
           (PathList 0%nat) load_pair "Extend" None true [] two_paths).
  right. reflexivity.
Defined.

(** ** [LazyDataset] *)

(** C2 (the code departs from it): [LazyDataset._make_dataset] drops the
    value of [sorted(path)], so the stored locations keep the order they
    were given in.  Built from the list [["b"; "a"]], and from a directory
    whose listing is [["b"; "a"]], the dataset holds the locations in that
    order, which is not the sorted one, and item [0] is loaded from ["b"]. *)
Theorem LazyDataset_data_not_sorted :
  (∃ self h',
     LazyDataset_init no_dirs LazyDataset (PathList 0%nat) load_sample [] two_paths
     = (Ok self, h')
     ∧ data_of h' self = Ok [VStr "b"; VStr "a"]
     ∧ py_sorted [VStr "b"; VStr "a"] = Ok [VStr "a"; VStr "b"]
     ∧ getitem h' self 0 = Ok (VDict [("id", VStr "b"); ("data", VInt 0)]))
  ∧ (∃ self h',
       LazyDataset_init (λ d, if String.eqb d "dir" then Some ["b"; "a"] else None)
         LazyDataset (PathDir "dir") load_sample [] []
       = (Ok self, h')
       ∧ data_of h' self = Ok [VStr "dir/b"; VStr "dir/a"]
       ∧ py_sorted [VStr "dir/b"; VStr "dir/a"] = Ok [VStr "dir/a"; VStr "dir/b"]).
Proof.
  split.
  - eexists _, _. split; [by vm_compute|]. repeat split; by vm_compute.
  - eexists _, _. split; [by vm_compute|]. repeat split; by vm_compute.
Qed.

(** The sibling [CacheDataset._make_dataset] keeps the value of
    [sorted(path)]: on the same list the samples come in sorted order. *)
Lemma CacheDataset_data_sorted :
  ∃ self h',
    CacheDataset_init false no_dirs CacheDataset (PathList 0%nat) load_sample
      "append" (Some 0) false [] two_paths = (Ok self, h')
    ∧ data_of h' self
      = Ok [VDict [("id", VStr "a"); ("data", VInt 0)];
            VDict [("id", VStr "b"); ("data", VInt 0)]].
Proof. eexists _, _. split; by vm_compute. Qed.

(** C1 (the code departs from it): the subset of a [LazyDataset] stores
    the loaded samples and then accesses them through
    [LazyDataset.__getitem__], which hands the stored entry to the loader
    again.  For the dataset over [["b"; "a"]], [dataset[0]] is the sample
    loaded from ["b"], while [dataset.get_subset([0])[0]] raises: the loader
    is called on that sample instead of a path. *)
Theorem get_subset_lazy_loads_twice :
  ∃ ds h1 sub h2,
    LazyDataset_init no_dirs LazyDataset (PathList 0%nat) load_sample [] two_paths
    = (Ok ds, h1)
    ∧ get_subset ds [0] h1 = (Ok sub, h2)
    ∧ getitem h1 ds 0 = Ok (VDict [("id", VStr "b"); ("data", VInt 0)])
    ∧ data_of h2 sub = Ok [VDict [("id", VStr "b"); ("data", VInt 0)]]
    ∧ getitem h2 sub 0
      = Raise (TypeError "expected str, bytes or os.PathLike object").
Proof.
  eexists _, _, _, _. split; [by vm_compute|]. split; [by vm_compute|].
  repeat split; by vm_compute.
Qed.

(** With a loader that accepts whatever it is given, the subset returns
    a sample that was loaded twice. *)
Lemma get_subset_lazy_loads_twice_total :
  let load : loader := λ p _, Ok (VList [p]) in
  ∃ ds h1 sub h2,
    LazyDataset_init no_dirs LazyDataset (PathList 0%nat) load [] two_paths
    = (Ok ds, h1)
    ∧ get_subset ds [0] h1 = (Ok sub, h2)
    ∧ getitem h1 ds 0 = Ok (VList [VStr "b"])
    ∧ getitem h2 sub 0 = Ok (VList [VList [VStr "b"]]).
Proof.
  eexists _, _, _, _. split; [by vm_compute|]. split; [by vm_compute|].
  split; by vm_compute.
Qed.

(** ** [IDManager] *)

Lemma eq_str_true (v : value) (id : string) : eq_str v id = true ↔ v = VStr id.
Proof.
  destruct v; simpl; try (split; [discriminate | by intros [=]]).
  destruct (String.eqb_spec s id); split; try done; congruence.
Qed.

Lemma as_key_str (v : value) (id : string) : as_key v = Ok (KStr id) ↔ v = VStr id.
Proof.
  destruct v as [|b|z|s|l|d]; simpl; split; try done; try by intros [=].
  - by intros [= ->].
  - by intros [= ->].
Qed.

Section Loops.

Variable get : Z → result value.
Variable id_key : string.

Lemma find_loop_first (id : string) (n : nat) (idx : Z) (vs : list value) (j : nat) :
  ids_loop get id_key n idx = Ok vs →
  vs !! j = Some (VStr id) →
  (∀ j', (j' < j)%nat → vs !! j' ≠ Some (VStr id)) →
  find_loop get (Ok id_key) id n idx = Ok (idx + Z.of_nat j).
Proof.
  revert idx vs j. induction n as [|n IH]; intros idx vs j; simpl; [done|].
  destruct (get idx) as [sample|e]; [|by destruct e; (try done); intros [= <-]].
  destruct (subscript sample id_key) as [v|e]; cbn [mbind result_bind]; [|done].
  destruct (ids_loop get id_key n (idx + 1)) as [vs'|e] eqn:Hvs';
    cbn [mbind result_bind]; [|done].
  intros [= <-] Hj Hfirst. destruct j as [|j].
  - injection Hj as ->. simpl. rewrite String.eqb_refl. f_equal. lia.
  - destruct (eq_str v id) eqn:Hv.
    + apply eq_str_true in Hv. subst v. by destruct (Hfirst 0%nat); [lia|].
    + rewrite (IH (idx + 1) vs' j Hvs' Hj).
      * f_equal. lia.
      * intros j' Hlt. apply (Hfirst (S j')). lia.
Qed.

Lemma find_loop_none (id : string) (n : nat) (idx : Z) (vs : list value) :
  ids_loop get id_key n idx = Ok vs →
  (∀ j, vs !! j ≠ Some (VStr id)) →
  find_loop get (Ok id_key) id n idx
  = Raise (KeyError ("ID " ++ id ++ " not found.")%string).
Proof.
  revert idx vs. induction n as [|n IH]; intros idx vs; simpl; [done|].
  destruct (get idx) as [sample|e]; [|by destruct e].
  destruct (subscript sample id_key) as [v|e]; cbn [mbind result_bind]; [|done].
  destruct (ids_loop get id_key n (idx + 1)) as [vs'|e] eqn:Hvs';
    cbn [mbind result_bind]; [|done].
  intros [= <-] Hnone. destruct (eq_str v id) eqn:Hv.
  - apply eq_str_true in Hv. subst v. by destruct (Hnone 0%nat).
  - apply (IH _ vs' Hvs'). intros j. apply (Hnone (S j)).
Qed.

Lemma cache_loop_fill (n : nat) (idx : Z) (m : gmap hkey Z) (vs : list value) :
  ids_loop get id_key n idx = Ok vs →
  cache_loop get (Ok id_key) n idx m
  = ks ← map_result as_key vs; Ok (fill m idx ks).
Proof.
  revert idx m vs. induction n as [|n IH]; intros idx m vs; simpl; [done|].
  destruct (get idx) as [sample|e]; [|by destruct e; (try done); intros [= <-]].
  destruct (subscript sample id_key) as [v|e]; cbn [mbind result_bind]; [|done].
  destruct (ids_loop get id_key n (idx + 1)) as [vs'|e] eqn:Hvs';
    cbn [mbind result_bind]; [|done].
  intros [= <-]. simpl. destruct (as_key v) as [k|e]; cbn [mbind result_bind]; [|done].
  rewrite (IH _ _ vs' Hvs').
  by destruct (map_result as_key vs').
Qed.

End Loops.

Lemma fill_lookup_none (m : gmap hkey Z) (idx : Z) (ks : list hkey) (key : hkey) :
  (∀ j, ks !! j ≠ Some key) → fill m idx ks !! key = m !! key.
Proof.
  revert m idx. induction ks as [|k ks IH]; intros m idx Hn; simpl; [done|].
  rewrite IH by (intros j; apply (Hn (S j))).
  apply lookup_insert_ne. intros ->. by destruct (Hn 0%nat).
Qed.

Lemma fill_lookup_last (m : gmap hkey Z) (idx : Z) (ks : list hkey) (key : hkey)
    (j : nat) :
  ks !! j = Some key →
  (∀ j', (j < j')%nat → ks !! j' ≠ Some key) →
  fill m idx ks !! key = Some (idx + Z.of_nat j).
Proof.
  revert m idx j. induction ks as [|k ks IH]; intros m idx j Hj Hlast; [done|].
  simpl. destruct j as [|j].
  - injection Hj as ->. rewrite fill_lookup_none.
    + rewrite lookup_insert_eq. f_equal. lia.
    + intros j'. apply (Hlast (S j')). lia.
  - rewrite (IH _ _ j Hj).
    + f_equal. lia.
    + intros j' Hlt. apply (Hlast (S j')). lia.
Qed.

Lemma map_as_key_lookup (vs : list value) (ks : list hkey) (j : nat) (id : string) :
  map_result as_key vs = Ok ks →
  ks !! j = Some (KStr id) ↔ vs !! j = Some (VStr id).
Proof.
  intros H%map_result_Ok. split; intros Hj.
  - destruct (Forall2_lookup_r _ _ _ _ _ H Hj) as (v & Hv & Hk).
    apply as_key_str in Hk. by subst.
  - destruct (Forall2_lookup_l _ _ _ _ _ H Hj) as (k & Hk & Hv).
    simpl in Hv. by injection Hv as <-.
Qed.

(** Item access looks at the class, at four attributes and at the list
    and the mapping two of them point to; rebinding other attributes of
    [self] and adding ID caches to the store leaves it as it was. *)
Section Frame.

Variable h : heap.
Variable self : addr.
Variable c : klass.
Variables attrs attrs' : gmap string ref.
Variable ms : list (gmap hkey Z).

Hypothesis Hself : h !! self = Some (OInst c attrs).
Hypothesis Hdata : attrs' !! "data" = attrs !! "data".
Hypothesis Hload_fn : attrs' !! "_load_fn" = attrs !! "_load_fn".
Hypothesis Hload_kwargs : attrs' !! "_load_kwargs" = attrs !! "_load_kwargs".
Hypothesis Hold_getitem : attrs' !! "_old_getitem" = attrs !! "_old_getitem".

Let h' : heap := <[self := OInst c attrs']> h ++ (OIdMap <$> ms).

Lemma frame_self : h' !! self = Some (OInst c attrs').
Proof.
  pose proof (lookup_lt_Some _ _ _ Hself) as Hlt.
  unfold h'. rewrite lookup_app_l by by rewrite length_insert.
  by apply list_lookup_insert_eq.
Qed.

Lemma frame_lookup (a : addr) :
  a = self ∨ h' !! a = h !! a
  ∨ (h !! a = None ∧ (h' !! a = None ∨ ∃ m, h' !! a = Some (OIdMap m))).
Proof.
  destruct (decide (a = self)) as [|Hne]; [by left|]. right.
  destruct (decide (a < length h)%nat) as [Hlt|Hge].
  - left. unfold h'. rewrite lookup_app_l by by rewrite length_insert.
    by apply list_lookup_insert_ne.
  - right. split; [apply lookup_ge_None; lia|].
    unfold h'. rewrite lookup_app_r by (rewrite length_insert; lia).
    rewrite list_lookup_fmap.
    destruct (ms !! _) as [m|]; [right; by exists m | by left].
Qed.

Lemma frame_read_list (r : ref) : read_list h' r = read_list h r.
Proof.
  destruct r as [| | |a]; try done. unfold read_list.
  destruct (frame_lookup a) as [->|[->|[-> [->|[m ->]]]]]; try done.
  by rewrite frame_self, Hself.
Qed.

Lemma frame_read_kwargs (r : ref) : read_kwargs h' r = read_kwargs h r.
Proof.
  destruct r as [| | |a]; try done. unfold read_kwargs.
  destruct (frame_lookup a) as [->|[->|[-> [->|[m ->]]]]]; try done.
  by rewrite frame_self, Hself.
Qed.

Lemma frame_CacheDataset_getitem (idx : Z) :
  CacheDataset_getitem h' self idx = CacheDataset_getitem h self idx.
Proof.
  unfold CacheDataset_getitem.
  rewrite (getattr_at _ _ _ _ _ frame_self), (getattr_at _ _ _ _ _ Hself), Hdata.
  destruct (attrs !! "data"); cbn [mbind result_bind]; [|done].
  by rewrite frame_read_list.
Qed.

Lemma frame_LazyDataset_getitem (idx : Z) :
  LazyDataset_getitem h' self idx = LazyDataset_getitem h self idx.
Proof.
  unfold LazyDataset_getitem.
  rewrite !(getattr_at _ _ _ _ _ frame_self), !(getattr_at _ _ _ _ _ Hself).
  rewrite Hdata, Hload_fn, Hload_kwargs.
  destruct (attrs !! "_load_fn"); cbn [mbind result_bind]; [|done].
  destruct (attrs !! "data"); cbn [mbind result_bind]; [|done].
  rewrite frame_read_list.
  destruct (read_list h r0); cbn [mbind result_bind]; [|done].
  destruct (py_index a idx); cbn [mbind result_bind]; [|done].
  destruct (attrs !! "_load_kwargs"); cbn [mbind result_bind]; [|done].
  by rewrite frame_read_kwargs.
Qed.

Lemma frame_getitem (idx : Z) : getitem h' self idx = getitem h self idx.
Proof.
  unfold getitem.
  rewrite (instance_at _ _ _ _ frame_self), (instance_at _ _ _ _ Hself).
  cbn [mbind result_bind].
  destruct (class_getitem c).
  - apply frame_CacheDataset_getitem.
  - apply frame_LazyDataset_getitem.
  - unfold SubsetDataset_getitem.
    rewrite (getattr_at _ _ _ _ _ frame_self), (getattr_at _ _ _ _ _ Hself).
    rewrite Hold_getitem.
    destruct (attrs !! "_old_getitem") as [[| |[]|]|]; cbn [mbind result_bind];
      try done.
    + apply frame_CacheDataset_getitem.
    + apply frame_LazyDataset_getitem.
Qed.

Lemma frame_iteration_bound : iteration_bound h' self = iteration_bound h self.
Proof.
  unfold iteration_bound, len.
  rewrite (getattr_at _ _ _ _ _ frame_self), (getattr_at _ _ _ _ _ Hself), Hdata.
  destruct (attrs !! "data"); cbn [mbind result_bind]; [|done].
  by rewrite frame_read_list.
Qed.

End Frame.

Lemma ids_loop_ext (get1 get2 : Z → result value) (id_key : string) :
  (∀ i, get1 i = get2 i) →
  ∀ n idx, ids_loop get1 id_key n idx = ids_loop get2 id_key n idx.
Proof.
  intros H n. induction n as [|n IH]; intros idx; simpl; [done|].
  rewrite H. destruct (get2 idx) as [sample|e]; [|done].
  by rewrite IH.
Qed.

Lemma find_loop_ext (get1 get2 : Z → result value) (id_key : result string)
    (id : string) :
  (∀ i, get1 i = get2 i) →
  ∀ n idx, find_loop get1 id_key id n idx = find_loop get2 id_key id n idx.
Proof.
  intros H n. induction n as [|n IH]; intros idx; simpl; [done|].
  rewrite H. destruct (get2 idx) as [sample|e]; [|done].
  by rewrite IH.
Qed.

Lemma cache_loop_ext (get1 get2 : Z → result value) (id_key : result string) :
  (∀ i, get1 i = get2 i) →
  ∀ n idx m, cache_loop get1 id_key n idx m = cache_loop get2 id_key n idx m.
Proof.
  intros H n. induction n as [|n IH]; intros idx m; simpl; [done|].
  rewrite H. destruct (get2 idx) as [sample|e]; [|done].
  destruct id_key as [key|e]; cbn [mbind result_bind]; [|done].
  destruct (subscript sample key); cbn [mbind result_bind]; [|done].
  destruct (as_key a); cbn [mbind result_bind]; [|done].
  apply IH.
Qed.

Lemma id_attrs_id_key (attrs : gmap string ref) (id_key : string) :
  id_attrs attrs id_key !! "id_key" = Some (Imm (VStr id_key)).
Proof.
  unfold id_attrs. rewrite lookup_insert_ne by done. apply lookup_insert_eq.
Qed.

Lemma id_attrs_other (attrs : gmap string ref) (id_key name : string) :
  name ≠ "_cached_ids" → name ≠ "id_key" →
  id_attrs attrs id_key !! name = attrs !! name.
Proof. intros. unfold id_attrs. by rewrite !lookup_insert_ne. Qed.

(** What [IDManager.__init__] leaves behind when it returns. *)
Lemma IDManager_init_inv (self : addr) (id_key : string) (cache_ids : bool)
    (h h1 : heap) :
  IDManager_init self id_key cache_ids h = (Ok (), h1) →
  ∃ c attrs,
    h !! self = Some (OInst c attrs)
    ∧ if cache_ids then
        ∃ m,
          cache_loop (getitem h self) (Ok id_key) (iteration_bound h self) 0 ∅
          = Ok m
          ∧ h1 = <[self := OInst c (<["_cached_ids" := Loc (length h)]>
                                      (id_attrs attrs id_key))]> h ++ [OIdMap m]
      else h1 = <[self := OInst c (id_attrs attrs id_key)]> h.
Proof.
  unfold IDManager_init. rewrite bind_run. unfold setattr at 1.
  destruct (h !! self) as [[| | |c attrs]|] eqn:Hself; try done.
  exists c, attrs. split; [done|].
  pose proof (lookup_lt_Some _ _ _ Hself) as Hlt.
  revert H. rewrite bind_run. unfold setattr at 1.
  rewrite list_lookup_insert_eq by done. rewrite list_insert_insert_eq.
  fold (id_attrs attrs id_key).
  assert (<[self := OInst c (id_attrs attrs id_key)]> h !! self
          = Some (OInst c (id_attrs attrs id_key))) as Hb
    by by apply list_lookup_insert_eq.
  destruct cache_ids; [|by intros [= <-]].
  unfold IDManager_cache_ids. rewrite bind_run. unfold reads at 1.
  unfold read_id_key. rewrite (getattr_at _ _ _ _ _ Hb).
  rewrite id_attrs_id_key. cbn [mbind result_bind].
  assert (∀ i, getitem (<[self := OInst c (id_attrs attrs id_key)]> h) self i
               = getitem h self i) as Hget.
  { intros i.
    rewrite <- (app_nil_r (<[self := OInst c (id_attrs attrs id_key)]> h)).
    apply (frame_getitem h self c attrs _ []); try done;
      by apply id_attrs_other. }
  assert (iteration_bound (<[self := OInst c (id_attrs attrs id_key)]> h) self
          = iteration_bound h self) as Hbound.
  { rewrite <- (app_nil_r (<[self := OInst c (id_attrs attrs id_key)]> h)).
    apply (frame_iteration_bound h self c attrs _ []); try done;
      by apply id_attrs_other. }
  rewrite Hbound, (cache_loop_ext _ _ _ Hget).
  destruct (cache_loop _ _ _ _ _) as [m|e]; [|done].
  cbn beta iota. rewrite bind_run, alloc_run. cbn beta iota.
  unfold setattr. rewrite (lookup_app_l_Some _ _ _ _ Hb).
  intros [= <-]. exists m. split; [done|].
  rewrite length_insert.
  rewrite insert_app_l by by rewrite length_insert.
  by rewrite list_insert_insert_eq.
Qed.

Lemma IDManager_init_frame (self : addr) (id_key : string) (cache_ids : bool)
    (h h1 : heap) :
  IDManager_init self id_key cache_ids h = (Ok (), h1) →
  (∀ i, getitem h1 self i = getitem h self i)
  ∧ iteration_bound h1 self = iteration_bound h self
  ∧ read_id_key h1 self = Ok id_key.
Proof.
  intros (c & attrs & Hself & H)%IDManager_init_inv.
  pose proof (lookup_lt_Some _ _ _ Hself) as Hlt.
  destruct cache_ids.
  - destruct H as (m & _ & ->).
    set (attrs1 := <["_cached_ids" := Loc (length h)]> (id_attrs attrs id_key)).
    assert (∀ name, name ≠ "_cached_ids" → name ≠ "id_key" →
                    attrs1 !! name = attrs !! name) as Hother.
    { intros name H1 H2. unfold attrs1. rewrite lookup_insert_ne by done.
      by apply id_attrs_other. }
    split; [|split].
    + intros i. apply (frame_getitem h self c attrs attrs1 [m]); try done;
        by apply Hother.
    + apply (frame_iteration_bound h self c attrs attrs1 [m]); try done;
        by apply Hother.
    + unfold read_id_key.
      rewrite (getattr_at _ _ c attrs1).
      * unfold attrs1. rewrite lookup_insert_ne by done.
        by rewrite id_attrs_id_key.
      * apply (frame_self h self c attrs attrs1 [m] Hself).
  - subst h1. split; [|split].
    + intros i.
      rewrite <- (app_nil_r (<[self := OInst c (id_attrs attrs id_key)]> h)).
      apply (frame_getitem h self c attrs _ []); try done;
        by apply id_attrs_other.
    + rewrite <- (app_nil_r (<[self := OInst c (id_attrs attrs id_key)]> h)).
      apply (frame_iteration_bound h self c attrs _ []); try done;
        by apply id_attrs_other.
    + unfold read_id_key.
      rewrite (getattr_at _ _ c (id_attrs attrs id_key))
        by by apply list_lookup_insert_eq.
      by rewrite id_attrs_id_key.
Qed.

Lemma IDManager_init_ids (self : addr) (id_key : string) (cache_ids : bool)
    (h h1 : heap) :
  IDManager_init self id_key cache_ids h = (Ok (), h1) →
  dataset_ids h1 self id_key = dataset_ids h self id_key.
Proof.
  intros (Hget & Hbound & _)%IDManager_init_frame.
  unfold dataset_ids. rewrite Hbound. by apply ids_loop_ext.
Qed.

(** Lookup through the cache: the index stored last under the key. *)
Lemma get_index_by_id_cached (self : addr) (id_key id : string) (h h1 : heap)
    (vs : list value) :
  IDManager_init self id_key true h = (Ok (), h1) →
  dataset_ids h self id_key = Ok vs →
  ∃ ks,
    map_result as_key vs = Ok ks
    ∧ IDManager_get_index_by_id h1 self id
      = match fill ∅ 0 ks !! KStr id with
        | Some idx => Ok idx
        | None => Raise (KeyError id)
        end.
Proof.
  intros (c & attrs & Hself & m & Hm & ->)%IDManager_init_inv Hvs.
  pose proof (lookup_lt_Some _ _ _ Hself) as Hlt.
  unfold dataset_ids in Hvs.
  rewrite (cache_loop_fill _ _ _ _ _ _ Hvs) in Hm.
  destruct (map_result as_key vs) as [ks|e]; [|done].
  injection Hm as <-. exists ks. split; [done|].
  set (attrs1 := <["_cached_ids" := Loc (length h)]> (id_attrs attrs id_key)).
  unfold IDManager_get_index_by_id.
  rewrite (getattr_at _ _ c attrs1)
    by apply (frame_self h self c attrs attrs1 [fill ∅ 0 ks] Hself).
  assert (attrs1 !! "_cached_ids" = Some (Loc (length h))) as ->
    by apply lookup_insert_eq.
  cbn [mbind result_bind].
  by rewrite list_lookup_middle by by rewrite length_insert.
Qed.

(** Lookup without the cache: the linear scan. *)
Lemma get_index_by_id_plain (self : addr) (id_key id : string) (h h2 : heap) :
  IDManager_init self id_key false h = (Ok (), h2) →
  IDManager_get_index_by_id h2 self id
  = find_loop (getitem h self) (Ok id_key) id (iteration_bound h self) 0.
Proof.
  intros Hinit.
  destruct (IDManager_init_frame _ _ _ _ _ Hinit) as (Hget & Hbound & Hkey).
  destruct (IDManager_init_inv _ _ _ _ _ Hinit) as (c & attrs & Hself & ->).
  pose proof (lookup_lt_Some _ _ _ Hself) as Hlt.
  unfold IDManager_get_index_by_id.
  rewrite (getattr_at _ _ c (id_attrs attrs id_key))
    by by apply list_lookup_insert_eq.
  assert (id_attrs attrs id_key !! "_cached_ids" = Some (Imm VNone)) as ->
    by apply lookup_insert_eq.
  cbn [mbind result_bind].
  unfold IDManager_find_index_iterative. rewrite Hkey.
  rewrite Hbound. by apply find_loop_ext.
Qed.

(** C3: on a dataset left as the loading strategy built it, for an ID
    present in the dataset, [get_index_by_id] returns the same index, that
    of the sample carrying the ID, both when the ID cache was built at
    construction and when it was not.  The ID is the sample's unique
    identifier: no other sample carries it. *)
Theorem get_index_by_id_cached_eq_linear (h h1 h2 : heap) (self : addr)
    (id_key id : string) (vs : list value) (j : nat) :
  IDManager_init self id_key true h = (Ok (), h1) →
  IDManager_init self id_key false h = (Ok (), h2) →
  dataset_ids h self id_key = Ok vs →
  vs !! j = Some (VStr id) →
  (∀ j', vs !! j' = Some (VStr id) → j' = j) →
  IDManager_get_index_by_id h1 self id = Ok (Z.of_nat j)
  ∧ IDManager_get_index_by_id h2 self id = Ok (Z.of_nat j).
Proof.
  intros H1 H2 Hvs Hj Huniq. split.
  - destruct (get_index_by_id_cached _ _ id _ _ _ H1 Hvs) as (ks & Hks & ->).
    rewrite (fill_lookup_last _ _ _ _ j); [done| |].
    + by apply (map_as_key_lookup vs).
    + intros j' Hlt Hj'%(map_as_key_lookup vs); [|done].
      apply Huniq in Hj'. lia.
  - rewrite (get_index_by_id_plain _ _ _ _ _ H2).
    rewrite (find_loop_first _ _ _ _ _ vs j Hvs Hj); [done|].
    intros j' Hlt Hj'. apply Huniq in Hj'. lia.
Qed.

(** C6: when no sample carries the ID, [get_index_by_id] raises
    [KeyError], with the cache and without it. *)
Theorem get_index_by_id_not_found (h h1 : heap) (self : addr)
    (id_key id : string) (cache_ids : bool) (vs : list value) :
  IDManager_init self id_key cache_ids h = (Ok (), h1) →
  dataset_ids h1 self id_key = Ok vs →
  (∀ j, vs !! j ≠ Some (VStr id)) →
  ∃ key, IDManager_get_index_by_id h1 self id = Raise (KeyError key).
Proof.
  intros Hinit Hvs Hnone.
  rewrite (IDManager_init_ids _ _ _ _ _ Hinit) in Hvs.
  destruct cache_ids.
  - destruct (get_index_by_id_cached _ _ id _ _ _ Hinit Hvs) as (ks & Hks & ->).
    rewrite fill_lookup_none.
    + rewrite lookup_empty. by exists id.
    + intros j' Hj'%(map_as_key_lookup vs); [|done]. by apply (Hnone j').
  - rewrite (get_index_by_id_plain _ _ _ _ _ Hinit).
    rewrite (find_loop_none _ _ _ _ _ vs Hvs Hnone). by eexists.
Qed.

Lemma get_index_by_id_cached_eq_linear_witness :
  IDManager_get_index_by_id (IDManager_init 1%nat "id" true id_base).2 1%nat "b"
  = Ok (Z.of_nat 1)
  ∧ IDManager_get_index_by_id (IDManager_init 1%nat "id" false id_base).2 1%nat "b"
    = Ok (Z.of_nat 1).
Proof.
  apply (get_index_by_id_cached_eq_linear id_base _ _ 1%nat "id" "b"
           [VStr "a"; VStr "b"] 1%nat);
    [by vm_compute | by vm_compute | by vm_compute | reflexivity |].
  intros [|[|[|j']]]; simpl; (done || discriminate).
Defined.

Lemma get_index_by_id_not_found_witness :
  ∃ key,
    IDManager_get_index_by_id (IDManager_init 1%nat "id" true id_base).2 1%nat "c"
    = Raise (KeyError key).
Proof.
  apply (get_index_by_id_not_found id_base _ 1%nat "id" "c" true
           [VStr "a"; VStr "b"]);
    [by vm_compute | by vm_compute |].
  intros [|[|[|j']]]; simpl; (done || discriminate).
Defined.

(** ** [RandomValuePerChannel.forward] with [per_channel] *)

Section SamplingFacts.

Context {state rand chan : Type}.
Variable random_sampler : state → rand * state.
Variable augment_fn : chan → rand → chan.
Variable uninit : chan.

Lemma draws_length (s : state) (n : nat) :
  length (draws random_sampler s n) = n.
Proof.
  revert s. induction n as [|n IH]; intros s; simpl; [done|].
  destruct (random_sampler s) as [v s']. simpl. by rewrite IH.
Qed.

(** The inner loop fills [out] from channel [i] on with the kernel applied
    to the channel and the next value of the sampler. *)
Lemma channel_loop_from (x out : list chan) (i n : nat) (s : state) :
  length out = length x → (i + n)%nat = length x →
  channel_loop random_sampler augment_fn x out i n s
  = (take i out ++ zip_with augment_fn (drop i x) (draws random_sampler s n),
     state_after random_sampler s n).
Proof.
  revert out i s. induction n as [|n IH]; intros out i s Hlen Hin; simpl.
  - rewrite drop_ge by lia. simpl. rewrite app_nil_r.
    by rewrite take_ge by lia.
  - destruct (random_sampler s) as [v s'] eqn:Hs. simpl.
    destruct (lookup_lt_is_Some_2 x i) as [c Hc]; [lia|].
    rewrite Hc. rewrite IH by (rewrite ?length_insert; lia).
    f_equal.
    rewrite (take_S_r _ _ (augment_fn c v))
      by (apply list_lookup_insert_eq; lia).
    rewrite take_insert_ge by lia.
    rewrite (drop_S _ _ _ Hc). simpl. by rewrite <- app_assoc.
Qed.

Lemma channel_loop_all (x : list chan) (s : state) :
  channel_loop random_sampler augment_fn x (empty_like uninit x) 0 (length x) s
  = (per_channel_transform random_sampler augment_fn s x,
     state_after random_sampler s (length x)).
Proof.
  rewrite channel_loop_from; [done| |done].
  unfold empty_like. by rewrite length_replicate.
Qed.

Lemma per_channel_transform_length (s : state) (x : list chan) :
  length (per_channel_transform random_sampler augment_fn s x) = length x.
Proof.
  unfold per_channel_transform. rewrite length_zip_with, draws_length. lia.
Qed.

End SamplingFacts.

(** A sampler that draws from torch's generator alone yields, from a
    generator state, the values of [f], whatever the rest of the state. *)
Lemma draws_torch {rng_state ambient rand : Type}
    (random_sampler : rng_state * ambient → rand * (rng_state * ambient))
    (f : rng_state → rand * rng_state) (t : rng_state) (a : ambient) (n : nat) :
  draws_from_torch random_sampler f →
  draws random_sampler (t, a) n = draws f t n.
Proof.
  intros H. revert t a. induction n as [|n IH]; intros t a; simpl; [done|].
  destruct (H t a) as [Hv Ht].
  destruct (random_sampler (t, a)) as [v [t' a']], (f t) as [v0 t0].
  simpl in Hv, Ht. subst. by rewrite IH.
Qed.

(** The generator state after [n] draws follows the sampler's effect on
    the generator alone. *)
Lemma state_after_torch {rng_state ambient rand : Type}
    (random_sampler : rng_state * ambient → rand * (rng_state * ambient))
    (f : rng_state → rand * rng_state) (t : rng_state) (a : ambient) (n : nat) :
  (∀ t a, (random_sampler (t, a)).2.1 = (f t).2) →
  (state_after random_sampler (t, a) n).1 = state_after f t n.
Proof.
  intros H. revert t a. induction n as [|n IH]; intros t a; simpl; [done|].
  specialize (H t a).
  destruct (random_sampler (t, a)) as [v [t' a']]. simpl in *. subst.
  apply IH.
Qed.

Section PerChannel.

Context {rng_state ambient rand chan : Type}.
Variable random_sampler : rng_state * ambient → rand * (rng_state * ambient).
Variable augment_fn : chan → rand → chan.
Variable augment_fn_tensor : list chan → rand → list chan.
Variable uninit : chan.
Variable f : rng_state → rand * rng_state.

Lemma per_channel_keys_spec (seed : rng_state) (keys : list string)
    (data : gmap string (list chan)) (s : rng_state * ambient) :
  draws_from_torch random_sampler f →
  (∀ k, k ∈ keys → is_Some (data !! k)) →
  ∃ out s',
    per_channel_keys random_sampler augment_fn uninit seed keys data s
    = Ok (out, s')
    ∧ ∀ k, out !! k
           = Nat.iter (count_occ string_dec keys k)
               (per_channel_transform f augment_fn seed)
             <$> data !! k.
Proof.
  intros Hf. revert data s. induction keys as [|key rest IH]; intros data s Hin.
  - exists data, s. split; [done|]. intros k. simpl. by destruct (data !! k).
  - destruct (Hin key) as [x Hx]; [by left|].
    cbn [per_channel_keys]. rewrite Hx, channel_loop_all.
    unfold set_rng_state, per_channel_transform at 1.
    rewrite (draws_torch _ f) by done.
    fold (per_channel_transform f augment_fn seed x).
    set (y := per_channel_transform f augment_fn seed x).
    destruct (IH (<[key := y]> data)
                (state_after random_sampler (seed, s.2) (length x)))
      as (out & s' & Hrun & Hout).
    { intros k Hk. destruct (decide (key = k)) as [->|Hne].
      - rewrite lookup_insert_eq. by eexists.
      - rewrite lookup_insert_ne by done. apply Hin. by right. }
    exists out, s'. split; [done|]. intros k. rewrite Hout.
    destruct (decide (key = k)) as [->|Hne].
    + rewrite count_occ_cons_eq by done.
      rewrite lookup_insert_eq, Hx. cbn [fmap option_fmap option_map]. f_equal.
      by rewrite Nat.iter_succ_r.
    + rewrite count_occ_cons_neq by done. by rewrite lookup_insert_ne.
Qed.

(** C9, as amended: with [per_channel], for a sampler that draws from
    torch's generator alone, when every configured key is in the batch,
    [forward] returns, and what it leaves under a key is the per-channel
    transform of that key's input, taken with the values the sampler yields
    from the generator state captured before the first key, applied once
    per occurrence of the key in [keys]: every key meets the same sequence
    of sampled values, and its output depends only on its own input and on
    the initial generator state. *)
Theorem forward_per_channel (keys : list string) (data : gmap string (list chan))
    (s : rng_state * ambient) :
  draws_from_torch random_sampler f →
  (∀ k, k ∈ keys → is_Some (data !! k)) →
  ∃ out s',
    forward random_sampler augment_fn augment_fn_tensor uninit true keys data s
    = Ok (out, s')
    ∧ ∀ k, out !! k
           = Nat.iter (count_occ string_dec keys k)
               (λ x, zip_with augment_fn x (draws f (get_rng_state s) (length x)))
             <$> data !! k.
Proof.
  intros Hf Hin. unfold forward.
  destruct (per_channel_keys_spec (get_rng_state s) keys data s Hf Hin)
    as (out & s' & Hrun & Hout).
  exists out, s'. split; [done|]. apply Hout.
Qed.

(** For a sampler that draws from torch's generator alone, two batches
    that agree on a key give, from the same generator state, the same
    output under that key, whatever the other keys hold and whatever the
    rest of the state is. *)
Corollary forward_per_channel_same_input (keys : list string)
    (data1 data2 out1 out2 : gmap string (list chan))
    (sa sb sa' sb' : rng_state * ambient) (k : string) :
  draws_from_torch random_sampler f →
  forward random_sampler augment_fn augment_fn_tensor uninit true keys data1 sa
  = Ok (out1, sa') →
  forward random_sampler augment_fn augment_fn_tensor uninit true keys data2 sb
  = Ok (out2, sb') →
  get_rng_state sa = get_rng_state sb →
  (∀ k', k' ∈ keys → is_Some (data1 !! k') ∧ is_Some (data2 !! k')) →
  data1 !! k = data2 !! k →
  out1 !! k = out2 !! k.
Proof.
  intros Hf H1 H2 Hs Hin Hk. unfold forward in H1, H2.
  destruct (per_channel_keys_spec (get_rng_state sa) keys data1 sa Hf)
    as (o1 & t1 & Hr1 & Ho1); [intros k' Hk'; by apply Hin|].
  destruct (per_channel_keys_spec (get_rng_state sb) keys data2 sb Hf)
    as (o2 & t2 & Hr2 & Ho2); [intros k' Hk'; by apply Hin|].
  rewrite H1 in Hr1. rewrite H2 in Hr2.
  injection Hr1 as <- <-. injection Hr2 as <- <-.
  by rewrite Ho1, Ho2, Hk, Hs.
Qed.

End PerChannel.

Lemma forward_per_channel_witness :
  ∃ out s',
    forward (λ s : nat * nat, (s.1, (S s.1, s.2))) Nat.add
      (λ x v, map (Nat.add v) x) 0%nat true ["data"; "seg"]
      (<["data" := [10; 20]%nat]> (<["seg" := [1; 2; 3]%nat]> ∅)) (5%nat, 0%nat)
    = Ok (out, s')
    ∧ ∀ k, out !! k
           = Nat.iter (count_occ string_dec ["data"; "seg"] k)
               (λ x, zip_with Nat.add x
                       (draws (λ t : nat, (t, S t))
                          (get_rng_state (5%nat, 0%nat)) (length x)))
             <$> (<["data" := [10; 20]%nat]> (<["seg" := [1; 2; 3]%nat]> ∅)
                    : gmap string (list nat)) !! k.
Proof.
  apply (forward_per_channel (λ s : nat * nat, (s.1, (S s.1, s.2))) Nat.add
           (λ x v, map (Nat.add v) x) 0%nat (λ t : nat, (t, S t))
           ["data"; "seg"]
           (<["data" := [10; 20]%nat]> (<["seg" := [1; 2; 3]%nat]> ∅))
           (5%nat, 0%nat)).
  - intros t a. split; reflexivity.
  - intros k Hk. apply elem_of_cons in Hk as [->|Hk]; [by eexists|].
    apply elem_of_cons in Hk as [->|Hk]; [by eexists|].
    by apply elem_of_nil in Hk.
Defined.

(** C9, as stated, fails: a sampler that counts in a state of its own,
    which [set_rng_state] does not put back, gives the second key the
    values after those of the first.  The two keys hold the same input and
    come out different. *)
Lemma forward_per_channel_sampler_outside_torch :
  ∃ out s',
    forward (λ s : nat * nat, (s.2, (s.1, S s.2))) Nat.add
      (λ x v, map (Nat.add v) x) 0%nat true ["data"; "seg"]
      (<["data" := [10; 20]%nat]> (<["seg" := [10; 20]%nat]> ∅)) (5%nat, 0%nat)
    = Ok (out, s')
    ∧ out !! "data" = Some [10; 21]%nat
    ∧ out !! "seg" = Some [12; 23]%nat.
Proof. eexists _, _. split; [by vm_compute|]. split; by vm_compute. Qed.

(** ** [DropoutCompose] at the two ends of the range of its value *)

Section Dropout.

Context {batch rng : Type}.
Variable uniform : rng → Q * rng.
Variable permute : rng → list nat → list nat * rng.

Hypothesis uniform_range : ∀ s, (0 <= (uniform s).1)%Q ∧ ((uniform s).1 < 1)%Q.
Hypothesis permute_Permutation : ∀ s l, (permute s l).1 ≡ₚ l.

Lemma stage_runs_zero (u : Q) : (0 < u)%Q → stage_runs 0 u = true.
Proof.
  intros H. unfold stage_runs. destruct (Qle_bool u 0) eqn:Hle; [|done].
  apply Qle_bool_iff in Hle. by apply Qlt_not_le in H.
Qed.

Lemma stage_runs_one (u : Q) : (u < 1)%Q → stage_runs 1 u = false.
Proof.
  intros H. unfold stage_runs. apply Qlt_le_weak in H.
  by apply Qle_bool_iff in H as ->.
Qed.

(** With the value [0] everywhere and positive draws every stage of the
    order runs. *)
Lemma run_gated_zero (ts : list (batch → batch)) (n : nat) (order : list nat)
    (b : batch) (s : rng) :
  (∀ s', (0 < (uniform s').1)%Q) →
  Forall (λ i, (i < n)%nat) order →
  (run_gated uniform ts (replicate n 0%Q) order b s).1 = run_stages ts order b.
Proof.
  intros Hpos H. revert b s.
  induction H as [|i order Hi _ IH]; intros b s; simpl; [done|].
  pose proof (Hpos s) as Hu. destruct (uniform s) as [u s1]. simpl in Hu.
  rewrite lookup_replicate_2 by done. simpl.
  rewrite stage_runs_zero by done. apply IH.
Qed.

(** With the value [1] everywhere no stage runs. *)
Lemma run_gated_one (ts : list (batch → batch)) (n : nat) (order : list nat)
    (b : batch) (s : rng) :
  Forall (λ i, (i < n)%nat) order →
  (run_gated uniform ts (replicate n 1%Q) order b s).1 = b.
Proof.
  intros H. revert b s.
  induction H as [|i order Hi _ IH]; intros b s; simpl; [done|].
  pose proof (uniform_range s) as [_ Hu]. destruct (uniform s) as [u s1].
  simpl in Hu. rewrite lookup_replicate_2 by done. simpl.
  rewrite stage_runs_one by done. apply IH.
Qed.

(** The order of a call holds every stage index once. *)
Lemma call_order_Permutation (c : compose batch) (s : rng) :
  (call_order permute c s).1 ≡ₚ seq 0 (length (transforms c)).
Proof.
  unfold call_order. destruct (shuffle c); [|done]. apply permute_Permutation.
Qed.

Lemma call_order_bound (c : compose batch) (s : rng) :
  Forall (λ i, (i < length (transforms c))%nat) (call_order permute c s).1.
Proof.
  rewrite call_order_Permutation. apply Forall_forall. intros i.
  rewrite elem_of_seq. lia.
Qed.


End Dropout.


(** ** The iteration bound is enough *)

Lemma CacheDataset_getitem_at_bound (h : heap) (self : addr) :
  ∃ e, CacheDataset_getitem h self (Z.of_nat (iteration_bound h self) - 1) = Raise e.
Proof.
  unfold iteration_bound, len, CacheDataset_getitem.
  destruct (getattr h self "data") as [d|e]; cbn [mbind result_bind]; [|by eexists].
  destruct (read_list h d) as [l|e]; cbn [mbind result_bind]; [|by eexists].
  replace (Z.of_nat (S (length l)) - 1) with (Z.of_nat (length l)) by lia.
  rewrite py_index_length. by eexists.
Qed.

Lemma LazyDataset_getitem_at_bound (h : heap) (self : addr) :
  ∃ e, LazyDataset_getitem h self (Z.of_nat (iteration_bound h self) - 1) = Raise e.
Proof.
  unfold iteration_bound, len, LazyDataset_getitem.
  destruct (getattr h self "_load_fn") as [f|e]; cbn [mbind result_bind];
    [|by eexists].
  destruct (getattr h self "data") as [d|e]; cbn [mbind result_bind]; [|by eexists].
  destruct (read_list h d) as [l|e]; cbn [mbind result_bind]; [|by eexists].
  replace (Z.of_nat (S (length l)) - 1) with (Z.of_nat (length l)) by lia.
  rewrite py_index_length. by eexists.
Qed.

(** The access at [len(self.data)] raises, whatever the class. *)
Lemma getitem_at_bound (h : heap) (self : addr) :
  ∃ e, getitem h self (Z.of_nat (iteration_bound h self) - 1) = Raise e.
Proof.
  unfold getitem.
  destruct (instance h self) as [[c attrs]|e]; cbn [mbind result_bind];
    [|by eexists].
  destruct (class_getitem c).
  - apply CacheDataset_getitem_at_bound.
  - apply LazyDataset_getitem_at_bound.
  - unfold SubsetDataset_getitem.
    destruct (getattr h self "_old_getitem") as [[| |[]|]|e];
      cbn [mbind result_bind]; try by eexists.
    + apply CacheDataset_getitem_at_bound.
    + apply LazyDataset_getitem_at_bound.
Qed.

Section Bound.

Variable get : Z → result value.
Variable id_key : result string.

Lemma find_loop_bound (id : string) (n extra : nat) (idx : Z) :
  (∃ e, get (idx + Z.of_nat n) = Raise e) →
  find_loop get id_key id (S n + extra) idx = find_loop get id_key id (S n) idx.
Proof.
  revert idx. induction n as [|n IH]; intros idx [e He].
  - rewrite Z.add_0_r in He. simpl. rewrite He. by destruct e.
  - change (S (S n) + extra)%nat with (S (S n + extra)).
    cbn [find_loop]. destruct (get idx) as [sample|e']; [|done].
    destruct id_key as [key|e']; cbn [mbind result_bind]; [|done].
    destruct (subscript sample key) as [v|e']; cbn [mbind result_bind]; [|done].
    destruct (eq_str v id); [done|].
    apply IH. exists e. rewrite <- He. f_equal. lia.
Qed.

Lemma cache_loop_bound (n extra : nat) (idx : Z) (m : gmap hkey Z) :
  (∃ e, get (idx + Z.of_nat n) = Raise e) →
  cache_loop get id_key (S n + extra) idx m = cache_loop get id_key (S n) idx m.
Proof.
  revert idx m. induction n as [|n IH]; intros idx m [e He].
  - rewrite Z.add_0_r in He. simpl. rewrite He. by destruct e.
  - change (S (S n) + extra)%nat with (S (S n + extra)).
    cbn [cache_loop]. destruct (get idx) as [sample|e']; [|done].
    destruct id_key as [key|e']; cbn [mbind result_bind]; [|done].
    destruct (subscript sample key) as [v|e']; cbn [mbind result_bind]; [|done].
    destruct (as_key v) as [k|e']; cbn [mbind result_bind]; [|done].
    apply IH. exists e. rewrite <- He. f_equal. lia.
Qed.

End Bound.

(** More allowed accesses than [iteration_bound] change nothing: the
    loops end on their own. *)
Lemma find_index_iterative_bound (h : heap) (self : addr) (id : string)
    (extra : nat) :
  find_loop (getitem h self) (read_id_key h self) id
    (iteration_bound h self + extra) 0
  = IDManager_find_index_iterative h self id.
Proof.
  unfold IDManager_find_index_iterative.
  pose proof (getitem_at_bound h self) as Hend.
  assert (∃ n, iteration_bound h self = S n) as [n Hn].
  { unfold iteration_bound. destruct (len h self); by eexists. }
  rewrite Hn in *. apply find_loop_bound.
  destruct Hend as [e He]. exists e. rewrite <- He. f_equal. lia.
Qed.

Lemma cache_ids_bound (h : heap) (self : addr) (extra : nat) :
  cache_loop (getitem h self) (read_id_key h self)
    (iteration_bound h self + extra) 0 ∅
  = cache_loop (getitem h self) (read_id_key h self) (iteration_bound h self) 0 ∅.
Proof.
  pose proof (getitem_at_bound h self) as Hend.
  assert (∃ n, iteration_bound h self = S n) as [n Hn].
  { unfold iteration_bound. destruct (len h self); by eexists. }
  rewrite Hn in *. apply cache_loop_bound.
  destruct Hend as [e He]. exists e. rewrite <- He. f_equal. lia.
Qed.

(** ** [sorted] sorts *)

Lemma insort_Permutation (x : string) (l : list string) : insort x l ≡ₚ x :: l.
Proof.
  induction l as [|y l IH]; simpl; [done|].
  destruct (String.leb x y); [done|].
  rewrite IH. apply Permutation_swap.
Qed.

Lemma sorted_Permutation (l : list string) : sorted l ≡ₚ l.
Proof.
  induction l as [|x l IH]; simpl; [done|].
  fold (sorted l). by rewrite insort_Permutation, IH.
Qed.

Lemma insort_Sorted (x : string) (l : list string) :
  Sorted (λ a b, String.leb a b = true) l →
  Sorted (λ a b, String.leb a b = true) (insort x l).
Proof.
  induction 1 as [|y l Hl IH Hhd]; simpl.
  - by repeat constructor.
  - destruct (String.leb x y) eqn:Hxy.
    + by repeat constructor.
    + constructor; [done|].
      destruct (String.leb_total x y) as [Hle|Hle]; [congruence|].
      destruct Hhd as [|z l Hyz]; simpl; [by constructor|].
      destruct (String.leb x z); by constructor.
Qed.

Lemma sorted_Sorted (l : list string) :
  Sorted (λ a b, String.leb a b = true) (sorted l).
Proof.
  induction l as [|x l IH]; simpl; [constructor|].
  by apply insort_Sorted.
Qed.

(** ** The lemmas above, tried on concrete inputs *)

Lemma get_subset_cache_getitem_witness :
  getitem (get_subset 1%nat [0] tagged_parent).2 3%nat (Z.of_nat 0)
  = getitem tagged_parent 1%nat 0.
Proof.
  apply (get_subset_cache_getitem tagged_parent _ 1%nat 3%nat [0] CacheDataset
           (<["__tag__" := Imm (VInt 7)]> (<["data" := Loc 0%nat]> ∅)) 0%nat 0);
    by vm_compute.
Defined.

Lemma forward_per_channel_same_input_witness :
  (<["data" := [15; 26]%nat]> (<["seg" := [6; 8]%nat]> ∅) : gmap string (list nat))
    !! "data"
  = (<["data" := [15; 26]%nat]> (<["seg" := [14]%nat]> ∅) : gmap string (list nat))
      !! "data".
Proof.
  apply (forward_per_channel_same_input (λ s : nat * nat, (s.1, (S s.1, s.2)))
           Nat.add (λ x v, map (Nat.add v) x) 0%nat (λ t : nat, (t, S t))
           ["data"; "seg"]
           (<["data" := [10; 20]%nat]> (<["seg" := [1; 2]%nat]> ∅))
           (<["data" := [10; 20]%nat]> (<["seg" := [9]%nat]> ∅))
           _ _ (5%nat, 0%nat) (5%nat, 3%nat) (7%nat, 0%nat) (6%nat, 3%nat) "data");
    [ | by vm_compute | by vm_compute | reflexivity | | by vm_compute].
  - intros t a. split; reflexivity.
  - intros k Hk. apply elem_of_cons in Hk as [->|Hk]; [split; by eexists|].
    apply elem_of_cons in Hk as [->|Hk]; [split; by eexists|].
    by apply elem_of_nil in Hk.
Defined.

(** * Further properties of the datasets *)

(** ** Subsets: size, failure, nesting *)

(** [len(dataset.get_subset(indices)) == len(indices)], for a parent of
    any class. *)
Theorem get_subset_len (h h' : heap) (self sub : addr) (indices : list Z) :
  get_subset self indices h = (Ok sub, h') →
  len h' sub = Ok (length indices).
Proof.
  intros Hrun.
  destruct (get_subset_inv _ _ _ _ _ Hrun) as (c & attrs & vs & Hi & Hvs & Hb).
  rewrite (get_subset_run _ _ _ _ _ _ Hi Hvs Hb) in Hrun.
  injection Hrun as <- <-.
  unfold len.
  rewrite (getattr_at _ _ SubsetDataset (subset_attrs c attrs (length h)))
    by apply lookup_alloc2_snd.
  rewrite subset_attrs_data. cbn [mbind result_bind].
  rewrite (read_list_at _ _ vs) by apply lookup_alloc2_fst.
  cbn [mbind result_bind]. f_equal. by eapply map_result_length.
Qed.

Lemma get_subset_len_witness :
  len (get_subset 1%nat [0; -1; 0] tagged_parent).2 3%nat
  = Ok (length [0; -1; 0]).
Proof.
  apply (get_subset_len tagged_parent _ 1%nat 3%nat [0; -1; 0]). by vm_compute.
Defined.

Lemma map_result_first_error {A B} (f : A → result B) (l : list A) (k : nat)
    (x : A) (e : exn) :
  l !! k = Some x → f x = Raise e →
  (∀ k' x', (k' < k)%nat → l !! k' = Some x' → ∃ y, f x' = Ok y) →
  map_result f l = Raise e.
Proof.
  revert k. induction l as [|x0 l IH]; intros k Hk He Hpre; [done|].
  destruct k as [|k]; simpl.
  - injection Hk as ->. by rewrite He.
  - destruct (Hpre 0%nat x0) as [y Hy]; [lia|done|]. rewrite Hy.
    cbn [mbind result_bind]. rewrite (IH k Hk He); [done|].
    intros k' x' Hlt Hx'. apply (Hpre (S k') x'); [lia|done].
Qed.

(** When the access to one of the indices raises, [get_subset] raises the
    error of the first such index and leaves the store as it was: no
    subset is built. *)
Theorem get_subset_propagates_error (h : heap) (self : addr) (indices : list Z)
    (c : klass) (attrs : gmap string ref) (k : nat) (idx : Z) (e : exn) :
  instance h self = Ok (c, attrs) →
  indices !! k = Some idx →
  getitem h self idx = Raise e →
  (∀ k' idx', (k' < k)%nat → indices !! k' = Some idx' →
     ∃ v, getitem h self idx' = Ok v) →
  get_subset self indices h = (Raise e, h).
Proof.
  intros Hi Hk He Hpre. unfold get_subset.
  rewrite bind_run. unfold reads at 1. rewrite Hi. cbn beta iota.
  rewrite bind_run. unfold reads at 1.
  by rewrite (map_result_first_error _ _ k idx e Hk He Hpre).
Qed.

Lemma get_subset_propagates_error_witness :
  get_subset 1%nat [0; 1] tagged_parent
  = (Raise (IndexError "list index out of range"), tagged_parent).
Proof.
  apply (get_subset_propagates_error tagged_parent 1%nat [0; 1] CacheDataset
           (<["__tag__" := Imm (VInt 7)]> (<["data" := Loc 0%nat]> ∅)) 1%nat 1);
    [by vm_compute | reflexivity | by vm_compute |].
  intros [|k'] idx' Hlt H; [|lia]. simpl in H. injection H as <-.
  eexists. by vm_compute.
Defined.

Lemma subset_attrs_cache_access (c : klass) (attrs : gmap string ref) (d : addr) :
  cache_access c attrs →
  subset_attrs c attrs d !! "_old_getitem"
  = Some (Getitem CacheDataset_getitem_fn).
Proof.
  intros [[Hc Hn]|[-> Ho]].
  - rewrite subset_attrs_old_getitem by done. by rewrite Hc.
  - by apply subset_attrs_inherited.
Qed.

(** A subset of a parent with cache access has cache access itself, and
    returns the parent's items. *)
Lemma get_subset_cache_access (h h' : heap) (self sub : addr) (indices : list Z)
    (c : klass) (attrs : gmap string ref) :
  instance h self = Ok (c, attrs) →
  cache_access c attrs →
  get_subset self indices h = (Ok sub, h') →
  ∃ attrs',
    instance h' sub = Ok (SubsetDataset, attrs')
    ∧ cache_access SubsetDataset attrs'
    ∧ ∀ k idx, indices !! k = Some idx →
        getitem h' sub (Z.of_nat k) = getitem h self idx.
Proof.
  intros Hi Hc Hrun.
  destruct (get_subset_inv _ _ _ _ _ Hrun) as (c' & attrs' & vs & Hi' & Hvs & Hb).
  rewrite Hi in Hi'. injection Hi' as <- <-.
  rewrite (get_subset_run _ _ _ _ _ _ Hi Hvs Hb) in Hrun.
  injection Hrun as <- <-.
  set (o := OInst SubsetDataset (subset_attrs c attrs (length h))).
  assert ((h ++ [OList vs; o]) !! S (length h) = Some o) as Hsub
    by apply lookup_alloc2_snd.
  assert ((h ++ [OList vs; o]) !! length h = Some (OList vs)) as Hdata
    by apply lookup_alloc2_fst.
  pose proof (subset_attrs_cache_access c attrs (length h) Hc) as Hold.
  exists (subset_attrs c attrs (length h)). split; [by apply instance_at|].
  split; [by right|].
  intros k idx Hk.
  destruct (map_result_lookup _ _ _ _ _ Hvs Hk) as (v & Hv & ->).
  unfold getitem. rewrite (instance_at _ _ _ _ Hsub). simpl.
  unfold SubsetDataset_getitem. rewrite (getattr_at _ _ _ _ _ Hsub), Hold. simpl.
  unfold CacheDataset_getitem. rewrite (getattr_at _ _ _ _ _ Hsub).
  rewrite subset_attrs_data. simpl. rewrite (read_list_at _ _ _ Hdata). simpl.
  by apply py_index_nat.
Qed.

(** Subsets nest: for a parent with cache access,
    [ds.get_subset(I).get_subset(J)[k] == ds[I[J[k]]]]. *)
Theorem get_subset_nested (h h1 h2 : heap) (self s1 s2 : addr) (I J : list Z)
    (c : klass) (attrs : gmap string ref) (k m : nat) (i : Z) :
  instance h self = Ok (c, attrs) →
  cache_access c attrs →
  get_subset self I h = (Ok s1, h1) →
  get_subset s1 J h1 = (Ok s2, h2) →
  J !! k = Some (Z.of_nat m) →
  I !! m = Some i →
  getitem h2 s2 (Z.of_nat k) = getitem h self i.
Proof.
  intros Hi Hc H1 H2 Hk Hm.
  destruct (get_subset_cache_access _ _ _ _ _ _ _ Hi Hc H1)
    as (attrs1 & Hi1 & Hc1 & Hget1).
  destruct (get_subset_cache_access _ _ _ _ _ _ _ Hi1 Hc1 H2)
    as (attrs2 & _ & _ & Hget2).
  rewrite (Hget2 k _ Hk). by apply Hget1.
Qed.

Lemma get_subset_nested_witness :
  getitem
    (get_subset 3%nat [Z.of_nat 1]
       (get_subset 1%nat [0; 0] tagged_parent).2).2 5%nat (Z.of_nat 0)
  = getitem tagged_parent 1%nat 0.
Proof.
  apply (get_subset_nested tagged_parent
           (get_subset 1%nat [0; 0] tagged_parent).2 _ 1%nat 3%nat 5%nat
           [0; 0] [Z.of_nat 1] CacheDataset
           (<["__tag__" := Imm (VInt 7)]> (<["data" := Loc 0%nat]> ∅))
           0%nat 1%nat 0);
    [by vm_compute | left; split; by vm_compute | by vm_compute | by vm_compute
    | reflexivity | reflexivity].
Defined.

(** An instance attribute named like a parameter of
    [SubsetDataset.__init__] is handed over as a keyword and collides with
    the positional argument: [get_subset] raises [TypeError]. *)
Theorem get_subset_parameter_name_clash (h : heap) (self : addr)
    (indices : list Z) (c : klass) (attrs : gmap string ref) (vs : list value)
    (r : ref) :
  instance h self = Ok (c, attrs) →
  map_result (getitem h self) indices = Ok vs →
  attrs !! "old_getitem" = Some r ∨ attrs !! "self" = Some r →
  ∃ msg h', get_subset self indices h = (Raise (TypeError msg), h').
Proof.
  intros Hi Hvs Hr. unfold get_subset.
  rewrite bind_run. unfold reads at 1. rewrite Hi. cbn beta iota.
  rewrite bind_run. unfold reads at 1. rewrite Hvs. cbn beta iota.
  rewrite bind_run, alloc_run. cbn beta iota.
  unfold SubsetDataset_init. rewrite bind_run, alloc_run. cbn beta iota.
  rewrite bind_run. unfold reads at 1.
  assert (∀ key, attrs !! key = Some r → is_dunder key = false → key ≠ "data" →
            is_Some (subset_kwargs attrs !! key)) as Hin.
  { intros key Hk Hd Hn. exists r. apply map_lookup_filter_Some.
    split; [done|]. simpl. split; [|done]. rewrite Hd. by intros []. }
  unfold bind_check.
  destruct (decide (is_Some (subset_kwargs attrs !! "self"))); [by eexists _, _|].
  destruct (decide (is_Some (subset_kwargs attrs !! "data"))); [by eexists _, _|].
  destruct (decide (is_Some (subset_kwargs attrs !! "old_getitem")));
    [by eexists _, _|].
  destruct Hr as [Hr|Hr]; exfalso; eauto.
Qed.

Lemma get_subset_parameter_name_clash_witness :
  ∃ msg h',
    get_subset 1%nat [0]
      [OList [VInt 1];
       OInst CacheDataset
         (<["old_getitem" := Imm VNone]> (<["data" := Loc 0%nat]> ∅))]
    = (Raise (TypeError msg), h').
Proof.
  apply (get_subset_parameter_name_clash _ 1%nat [0] CacheDataset
           (<["old_getitem" := Imm VNone]> (<["data" := Loc 0%nat]> ∅))
           [VInt 1] (Imm VNone));
    [by vm_compute | by vm_compute | left; by vm_compute].
Defined.

(** ** The order of strings, and [sorted] up to rearrangement *)

Lemma ascii_compare_spec (a b : ascii) :
  CompareSpec (a = b) (N_of_ascii a < N_of_ascii b)%N
    (N_of_ascii b < N_of_ascii a)%N (Ascii.compare a b).
Proof.
  unfold Ascii.compare.
  destruct (N.compare_spec (N_of_ascii a) (N_of_ascii b)) as [H|H|H];
    constructor; try done.
  by rewrite <- (ascii_N_embedding a), <- (ascii_N_embedding b), H.
Qed.

Lemma string_leb_cons (a b : ascii) (s t : string) :
  String.leb (String a s) (String b t)
  = match Ascii.compare a b with
    | Eq => String.leb s t
    | Lt => true
    | Gt => false
    end.
Proof. unfold String.leb. simpl. by destruct (Ascii.compare a b). Qed.

Lemma string_leb_trans (s1 s2 s3 : string) :
  String.leb s1 s2 = true → String.leb s2 s3 = true → String.leb s1 s3 = true.
Proof.
  revert s2 s3. induction s1 as [|a s1 IH]; intros [|b s2] [|c s3]; try done.
  rewrite !string_leb_cons.
  destruct (ascii_compare_spec a b) as [->|Hab|Hab]; [|intros _|done].
  - destruct (ascii_compare_spec b c) as [->|Hbc|Hbc]; [apply IH|done|done].
  - destruct (ascii_compare_spec b c) as [->|Hbc|Hbc]; [|intros _|done].
    + by destruct (ascii_compare_spec a c) as [->|Hac|Hac]; [lia| |lia].
    + by destruct (ascii_compare_spec a c) as [->|Hac|Hac]; [lia| |lia].
Qed.

Lemma insort_comm (x y : string) (l : list string) :
  insort x (insort y l) = insort y (insort x l).
Proof.
  induction l as [|z l IH]; simpl.
  - destruct (String.leb x y) eqn:Hxy, (String.leb y x) eqn:Hyx; try done.
    + by rewrite (String.leb_antisym _ _ Hxy Hyx).
    + destruct (String.leb_total x y); congruence.
  - destruct (String.leb y z) eqn:Hyz, (String.leb x z) eqn:Hxz; simpl;
      rewrite ?Hyz, ?Hxz.
    + destruct (String.leb x y) eqn:Hxy, (String.leb y x) eqn:Hyx; simpl;
        rewrite ?Hyz, ?Hxz; try done.
      * by rewrite (String.leb_antisym _ _ Hxy Hyx).
      * destruct (String.leb_total x y); congruence.
    + destruct (String.leb x y) eqn:Hxy; simpl; rewrite ?Hxz; [|done].
      by rewrite (string_leb_trans _ _ _ Hxy Hyz) in Hxz.
    + destruct (String.leb y x) eqn:Hyx; simpl; rewrite ?Hyz; [|done].
      by rewrite (string_leb_trans _ _ _ Hyx Hxz) in Hyz.
    + by rewrite IH.
Qed.

(** [sorted] does not depend on the order of its input. *)
Lemma sorted_Permutation_eq (l1 l2 : list string) :
  l1 ≡ₚ l2 → sorted l1 = sorted l2.
Proof.
  induction 1 as [|x l1 l2 _ IH|x y l|l1 l2 l3 _ IH1 _ IH2]; simpl.
  - done.
  - fold (sorted l1) (sorted l2). by rewrite IH.
  - apply insort_comm.
  - congruence.
Qed.

Lemma map_as_path_Permutation (vs1 vs2 : list value) :
  vs1 ≡ₚ vs2 →
  match map_result as_path vs1, map_result as_path vs2 with
  | Ok p1, Ok p2 => p1 ≡ₚ p2
  | Raise e1, Raise e2 => e1 = e2
  | _, _ => False
  end.
Proof.
  assert (∀ v e, as_path v = Raise e →
            e = TypeError "expected str, bytes or os.PathLike object") as Herr.
  { intros [] e; simpl; congruence. }
  assert (∀ vs e, map_result as_path vs = Raise e →
            e = TypeError "expected str, bytes or os.PathLike object") as Herrs.
  { induction vs as [|v vs IH]; intros e; simpl; [done|].
    destruct (as_path v) eqn:Hv; cbn [mbind result_bind].
    - destruct (map_result as_path vs); cbn [mbind result_bind]; [done|].
      intros [= <-]. by apply IH.
    - intros [= <-]. by eapply Herr. }
  induction 1 as [|v vs1 vs2 _ IH|v w vs|vs1 vs2 vs3 _ IH1 _ IH2]; simpl.
  - done.
  - destruct (as_path v); cbn [mbind result_bind]; [|done].
    destruct (map_result as_path vs1), (map_result as_path vs2);
      cbn [mbind result_bind]; try done; try (by constructor); congruence.
  - destruct (as_path v) eqn:Hv, (as_path w) eqn:Hw; cbn [mbind result_bind];
      try rewrite Hv; try rewrite Hw; cbn [mbind result_bind].
    + destruct (map_result as_path vs); cbn [mbind result_bind];
        [apply Permutation_swap | done].
    + done.
    + destruct (map_result as_path vs); cbn [mbind result_bind];
        by rewrite (Herr _ _ Hv).
    + by rewrite (Herr _ _ Hv), (Herr _ _ Hw).
  - destruct (map_result as_path vs1) eqn:H1, (map_result as_path vs2) eqn:H2,
      (map_result as_path vs3) eqn:H3; try done.
    + by etrans.
    + congruence.
Qed.

Lemma py_sorted_Permutation (vs1 vs2 : list value) :
  vs1 ≡ₚ vs2 → py_sorted vs1 = py_sorted vs2.
Proof.
  intros H%map_as_path_Permutation. unfold py_sorted.
  destruct (map_result as_path vs1), (map_result as_path vs2);
    cbn [mbind result_bind]; try done.
  - by rewrite (sorted_Permutation_eq _ _ H).
  - by subst.
Qed.

(** ** [CacheDataset]: the whole of its construction *)

Lemma list_paths_alloc (listdir : string → option (list string)) (h : heap)
    (c : klass) (attrs : gmap string ref) (kw : kwargs) (path : path_arg) :
  list_paths listdir (h ++ [OInst c attrs; ODict kw]) path
  = list_paths listdir h path.
Proof.
  destruct path as [a|d]; simpl; [|done]. unfold read_list.
  destruct (decide (a < length h)%nat) as [Hlt|Hge].
  - by rewrite lookup_app_l.
  - rewrite (lookup_ge_None_2 h a) by lia.
    rewrite lookup_app_r by lia.
    by destruct (a - length h)%nat as [|[|n]].
Qed.

(** [CacheDataset.__init__] in one step, whatever the outcome. *)
Lemma CacheDataset_init_total (debug_mode : bool)
    (listdir : string → option (list string)) (c : klass) (path : path_arg)
    (load_fn : loader) (mode : string) (num_workers : option Z) (verbose : bool)
    (kw : kwargs) (h : heap) :
  CacheDataset_init debug_mode listdir c path load_fn mode num_workers verbose kw h
  = let attrs := cache_attrs debug_mode load_fn num_workers verbose (S (length h)) in
    match ps ← sorted_paths listdir h path;
          load_all load_fn kw (effective_workers debug_mode num_workers) ps mode
    with
    | Ok data =>
        (Ok (length h),
         h ++ [OInst c (<["data" := Loc (S (S (length h)))]> attrs);
               ODict kw; OList data])
    | Raise e => (Raise e, h ++ [OInst c attrs; ODict kw])
    end.
Proof.
  unfold sorted_paths.
  destruct (list_paths listdir h path) as [vs|e] eqn:Hp; cbn [mbind result_bind];
    [destruct (py_sorted vs) as [ps|e] eqn:Hs; cbn [mbind result_bind];
       [by apply CacheDataset_init_run with vs|]|].
  all: unfold CacheDataset_init;
    rewrite bind_run, alloc_run; cbn beta iota;
    do 3 (rewrite bind_run, setattr_at);
    rewrite bind_run, alloc_run; cbn beta iota;
    rewrite <- app_assoc; cbn [app];
    rewrite length_app; cbn [length]; rewrite Nat.add_1_r;
    rewrite bind_run, setattr_at;
    fold (effective_workers debug_mode num_workers);
    fold (effective_verbose debug_mode num_workers verbose);
    fold (cache_attrs debug_mode load_fn num_workers verbose (S (length h)));
    rewrite bind_run; unfold reads at 1; unfold CacheDataset_make_dataset;
    rewrite list_paths_alloc, Hp; cbn [mbind result_bind];
    rewrite ?Hs; reflexivity.
Qed.

Lemma CacheDataset_final_self (h : heap) (c : klass) (attrs : gmap string ref)
    (kw : kwargs) (data : list value) :
  (h ++ [OInst c (<["data" := Loc (S (S (length h)))]> attrs); ODict kw; OList data])
    !! length h
  = Some (OInst c (<["data" := Loc (S (S (length h)))]> attrs)).
Proof. by apply list_lookup_middle. Qed.

Lemma CacheDataset_final_data (h : heap) (c : klass) (attrs : gmap string ref)
    (kw : kwargs) (data : list value) :
  data_of
    (h ++ [OInst c (<["data" := Loc (S (S (length h)))]> attrs); ODict kw; OList data])
    (length h)
  = Ok data.
Proof.
  unfold data_of. rewrite (getattr_at _ _ _ _ _ (CacheDataset_final_self _ _ _ _ _)).
  rewrite lookup_insert_eq. cbn [mbind result_bind].
  apply read_list_at. rewrite lookup_app_r by lia.
  by replace (S (S (length h)) - length h)%nat with 2%nat by lia.
Qed.

(** Item access of a dataset that goes through [CacheDataset.__getitem__]
    is indexing into [self.data]. *)
Lemma getitem_cache_data (h : heap) (self : addr) (c : klass)
    (attrs : gmap string ref) (l : list value) (i : Z) :
  instance h self = Ok (c, attrs) →
  class_getitem c = CacheDataset_getitem_fn →
  data_of h self = Ok l →
  getitem h self i = py_index l i.
Proof.
  intros Hi Hc Hd. unfold getitem. rewrite Hi. cbn [mbind result_bind].
  rewrite Hc. unfold CacheDataset_getitem. unfold data_of in Hd.
  destruct (getattr h self "data") as [d|e]; cbn [mbind result_bind] in *; [|done].
  by destruct (read_list h d) as [l'|e]; cbn [mbind result_bind] in *;
    [injection Hd as ->|].
Qed.

Lemma len_data (h : heap) (self : addr) (l : list value) :
  data_of h self = Ok l → len h self = Ok (length l).
Proof.
  unfold data_of, len.
  destruct (getattr h self "data") as [d|e]; cbn [mbind result_bind]; [|done].
  by destruct (read_list h d) as [l'|e]; cbn [mbind result_bind];
    [intros [= ->]|].
Qed.

Section LoadAllWorkers.

Variable load : value → result value.
Variable mode : string.

Lemma load_and_add_of_map (ps us data0 data : list value) :
  map_result load ps = Ok us →
  add_items data0 us mode = Ok data →
  load_and_add load data0 ps mode = Ok data.
Proof.
  revert us data0. induction ps as [|p ps IH]; intros us data0; simpl.
  - by intros [= <-].
  - destruct (load p) as [u|e]; cbn [mbind result_bind]; [|done].
    destruct (map_result load ps) as [us'|e] eqn:Hus; cbn [mbind result_bind];
      [|done].
    intros [= <-]. simpl.
    destruct (_add_item data0 u mode) as [data1|e]; cbn [mbind result_bind];
      [|done].
    by apply IH.
Qed.

End LoadAllWorkers.

Lemma load_all_sequential (load_fn : loader) (kw : kwargs) (nw1 nw2 : option Z)
    (ps data : list value) (mode : string) :
  load_all load_fn kw nw1 ps mode = Ok data →
  parallel nw2 = false →
  load_all load_fn kw nw2 ps mode = Ok data.
Proof.
  unfold load_all. intros H ->. destruct (parallel nw1); [|done].
  destruct (map_result _ ps) as [us|e] eqn:Hus; cbn [mbind result_bind] in H;
    [|done].
  by apply load_and_add_of_map with us.
Qed.

(** Loading in the main process gives what the worker pool gives: when
    the construction returns under one setting of worker count, progress
    display and debug mode, it returns under every setting that loads
    sequentially (a worker count of [0], or any worker count in debug
    mode), at the same address and with the same samples in the same
    order.  The fall-back of the debug mode does not change the dataset. *)
Theorem CacheDataset_sequential_fallback (debug1 debug2 : bool)
    (listdir : string → option (list string)) (c : klass) (path : path_arg)
    (load_fn : loader) (mode : string) (nw1 nw2 : option Z)
    (verbose1 verbose2 : bool) (kw : kwargs) (h h1 : heap) (self : addr) :
  CacheDataset_init debug1 listdir c path load_fn mode nw1 verbose1 kw h
  = (Ok self, h1) →
  parallel (effective_workers debug2 nw2) = false →
  ∃ h2,
    CacheDataset_init debug2 listdir c path load_fn mode nw2 verbose2 kw h
    = (Ok self, h2)
    ∧ data_of h2 self = data_of h1 self.
Proof.
  rewrite !CacheDataset_init_total. cbn zeta.
  destruct (sorted_paths listdir h path) as [ps|e]; cbn [mbind result_bind];
    [|done].
  destruct (load_all load_fn kw (effective_workers debug1 nw1) ps mode)
    as [data|e] eqn:Hl; [|done].
  intros [= <- <-] Hseq.
  rewrite (load_all_sequential _ _ _ (effective_workers debug2 nw2) _ _ _ Hl Hseq).
  eexists. split; [done|]. by rewrite !CacheDataset_final_data.
Qed.

Lemma CacheDataset_sequential_fallback_witness :
  ∃ h2,
    CacheDataset_init true no_dirs CacheDataset (PathList 0%nat) load_sample
      "append" None true [] two_paths = (Ok 1%nat, h2)
    ∧ data_of h2 1%nat
      = data_of
          (CacheDataset_init false no_dirs CacheDataset (PathList 0%nat) load_sample
             "append" None false [] two_paths).2 1%nat.
Proof.
  apply (CacheDataset_sequential_fallback false true no_dirs CacheDataset
           (PathList 0%nat) load_sample "append" None None false true []
           two_paths).
  - by vm_compute.
  - reflexivity.
Defined.

(** What [CacheDataset.__init__] stores of its configuration: progress
    display is never kept together with parallel loading, and in debug
    mode the stored worker count is never [None] or positive. *)
Theorem CacheDataset_stored_configuration (debug_mode : bool)
    (listdir : string → option (list string)) (c : klass) (path : path_arg)
    (load_fn : loader) (mode : string) (num_workers : option Z) (verbose : bool)
    (kw : kwargs) (h h' : heap) (self : addr) :
  CacheDataset_init debug_mode listdir c path load_fn mode num_workers verbose kw h
  = (Ok self, h') →
  ∃ nw v,
    getattr h' self "_num_workers" = Ok (workers_ref nw)
    ∧ getattr h' self "_verbosity" = Ok (Imm (VBool v))
    ∧ (parallel nw = true → v = false)
    ∧ (debug_mode = true → parallel nw = false)
    ∧ (debug_mode = false → nw = num_workers)
    ∧ (parallel nw = false → v = verbose).
Proof.
  rewrite CacheDataset_init_total. cbn zeta.
  destruct (_ ≫= _) as [data|e]; [|done]. intros [= <- <-].
  exists (effective_workers debug_mode num_workers),
    (effective_verbose debug_mode num_workers verbose).
  rewrite !(getattr_at _ _ _ _ _ (CacheDataset_final_self _ _ _ _ _)).
  rewrite !lookup_insert_ne by done. rewrite cache_attrs_num_workers.
  split; [done|]. split.
  { unfold cache_attrs. rewrite !lookup_insert_ne by done.
    by rewrite lookup_insert_eq. }
  unfold effective_verbose, effective_workers.
  destruct debug_mode, (parallel num_workers) eqn:Hp, verbose; simpl;
    rewrite ?Hp; repeat split; try done; try congruence.
Qed.

Lemma CacheDataset_stored_configuration_witness :
  ∃ nw v,
    getattr
      (CacheDataset_init true no_dirs CacheDataset (PathList 0%nat) load_sample
         "append" None true [] two_paths).2 1%nat "_num_workers"
    = Ok (workers_ref nw)
    ∧ getattr
        (CacheDataset_init true no_dirs CacheDataset (PathList 0%nat) load_sample
           "append" None true [] two_paths).2 1%nat "_verbosity"
      = Ok (Imm (VBool v))
    ∧ (parallel nw = true → v = false)
    ∧ (true = true → parallel nw = false)
    ∧ (true = false → nw = None)
    ∧ (parallel nw = false → v = true).
Proof.
  apply (CacheDataset_stored_configuration true no_dirs CacheDataset
           (PathList 0%nat) load_sample "append" None true [] two_paths).
  by vm_compute.
Defined.

(** With no sample location the dataset is empty, whatever the mode: its
    length is 0 and every index is out of range. *)
Theorem CacheDataset_empty (debug_mode : bool)
    (listdir : string → option (list string)) (c : klass) (path : path_arg)
    (load_fn : loader) (mode : string) (num_workers : option Z) (verbose : bool)
    (kw : kwargs) (h : heap) :
  class_getitem c = CacheDataset_getitem_fn →
  list_paths listdir h path = Ok [] →
  ∃ self h',
    CacheDataset_init debug_mode listdir c path load_fn mode num_workers verbose kw h
    = (Ok self, h')
    ∧ len h' self = Ok 0%nat
    ∧ ∀ i, getitem h' self i = Raise (IndexError "list index out of range").
Proof.
  intros Hc Hp. rewrite CacheDataset_init_total. cbn zeta.
  unfold sorted_paths. rewrite Hp. cbn [mbind result_bind].
  assert (py_sorted [] = Ok []) as -> by done. cbn [mbind result_bind].
  assert (load_all load_fn kw (effective_workers debug_mode num_workers) [] mode
          = Ok []) as -> by (unfold load_all; by destruct (parallel _)).
  eexists _, _. split; [done|].
  pose proof (CacheDataset_final_data h c
    (cache_attrs debug_mode load_fn num_workers verbose (S (length h))) kw [])
    as Hd.
  split; [by apply (len_data _ _ [])|].
  intros i.
  rewrite (getitem_cache_data _ _ c _ [] i
             (instance_at _ _ _ _ (CacheDataset_final_self _ _ _ _ _)) Hc Hd).
  unfold py_index. cbn [length]. change (Z.of_nat 0) with 0. cbv zeta.
  destruct (i <? 0) eqn:Hi.
  - by rewrite Z.add_0_r, Hi.
  - rewrite Hi. assert ((0 <=? i) = true) as -> by lia. done.
Qed.

Lemma CacheDataset_empty_witness :
  ∃ self h',
    CacheDataset_init false no_dirs CacheDataset (PathList 0%nat) load_sample
      "stack" None true [] [OList []]
    = (Ok self, h')
    ∧ len h' self = Ok 0%nat
    ∧ ∀ i, getitem h' self i = Raise (IndexError "list index out of range").
Proof.
  apply (CacheDataset_empty false no_dirs CacheDataset (PathList 0%nat)
           load_sample "stack" None true [] [OList []]); reflexivity.
Defined.

(** The samples do not depend on the order in which the locations are
    given or listed: two lists of locations that are rearrangements of one
    another, or two listings of a directory, build the same dataset. *)
Theorem CacheDataset_order_independent (debug_mode : bool)
    (listdir1 listdir2 : string → option (list string)) (c : klass)
    (path1 path2 : path_arg) (load_fn : loader) (mode : string)
    (num_workers : option Z) (verbose : bool) (kw : kwargs) (h : heap)
    (vs1 vs2 : list value) :
  list_paths listdir1 h path1 = Ok vs1 →
  list_paths listdir2 h path2 = Ok vs2 →
  vs1 ≡ₚ vs2 →
  CacheDataset_init debug_mode listdir1 c path1 load_fn mode num_workers verbose kw h
  = CacheDataset_init debug_mode listdir2 c path2 load_fn mode num_workers verbose
      kw h.
Proof.
  intros H1 H2 Hperm. rewrite !CacheDataset_init_total. unfold sorted_paths.
  rewrite H1, H2. cbn [mbind result_bind].
  by rewrite (py_sorted_Permutation _ _ Hperm).
Qed.

Lemma CacheDataset_order_independent_witness :
  CacheDataset_init false (λ _, Some ["b"; "a"]) CacheDataset (PathDir "dir")
    load_sample "append" None false [] []
  = CacheDataset_init false (λ _, Some ["a"; "b"]) CacheDataset (PathDir "dir")
      load_sample "append" None false [] [].
Proof.
  apply (CacheDataset_order_independent false (λ _, Some ["b"; "a"])
           (λ _, Some ["a"; "b"]) CacheDataset (PathDir "dir") (PathDir "dir")
           load_sample "append" None false [] []
           [VStr "dir/b"; VStr "dir/a"] [VStr "dir/a"; VStr "dir/b"]);
    [reflexivity | reflexivity | apply Permutation_swap].
Defined.

Section ExtendErrors.

Variable load_fn : loader.
Variable kw : kwargs.
Variable mode : string.
Hypothesis Hmode : lower mode = "extend".

Lemma add_items_not_iterable (data us : list value) (j : nat) (u : value)
    (e : exn) :
  us !! j = Some u → py_iter u = Raise e →
  (∀ j' u', (j' < j)%nat → us !! j' = Some u' → ∃ l, py_iter u' = Ok l) →
  add_items data us mode = Raise e.
Proof.
  revert data j. induction us as [|u0 us IH]; intros data j Hj He Hpre; [done|].
  simpl. rewrite add_item_extend by done. destruct j as [|j].
  - injection Hj as ->. by rewrite He.
  - destruct (Hpre 0%nat u0) as [l Hl]; [lia|done|]. rewrite Hl.
    cbn [mbind result_bind]. apply (IH _ j Hj He).
    intros j' u' Hlt Hu'. apply (Hpre (S j') u'); [lia|done].
Qed.

Lemma load_and_add_not_iterable (data ps us : list value) (j : nat) (u : value)
    (e : exn) :
  Forall2 (λ p u, load_fn p kw = Ok u) ps us →
  us !! j = Some u → py_iter u = Raise e →
  (∀ j' u', (j' < j)%nat → us !! j' = Some u' → ∃ l, py_iter u' = Ok l) →
  load_and_add (λ p, load_fn p kw) data ps mode = Raise e.
Proof.
  intros Hus. revert data j.
  induction Hus as [|p u0 ps us Hp _ IH]; intros data j Hj He Hpre; [done|].
  simpl. rewrite Hp. cbn [mbind result_bind].
  rewrite add_item_extend by done. destruct j as [|j].
  - injection Hj as ->. by rewrite He.
  - destruct (Hpre 0%nat u0) as [l Hl]; [lia|done|]. rewrite Hl.
    cbn [mbind result_bind]. apply (IH _ j Hj He).
    intros j' u' Hlt Hu'. apply (Hpre (S j') u'); [lia|done].
Qed.

End ExtendErrors.

(** In mode ["extend"] a loaded unit that cannot be iterated stops the
    construction with the [TypeError] of the iteration: no dataset is
    built, also when later units are iterable. *)
Theorem CacheDataset_extend_not_iterable (debug_mode : bool)
    (listdir : string → option (list string)) (c : klass) (path : path_arg)
    (load_fn : loader) (mode : string) (num_workers : option Z) (verbose : bool)
    (kw : kwargs) (h : heap) (ps us : list value) (j : nat) (u : value)
    (e : exn) :
  lower mode = "extend" →
  sorted_paths listdir h path = Ok ps →
  Forall2 (λ p u, load_fn p kw = Ok u) ps us →
  us !! j = Some u → py_iter u = Raise e →
  (∀ j' u', (j' < j)%nat → us !! j' = Some u' → ∃ l, py_iter u' = Ok l) →
  ∃ h',
    CacheDataset_init debug_mode listdir c path load_fn mode num_workers verbose kw h
    = (Raise e, h').
Proof.
  intros Hm Hps Hus Hj He Hpre. rewrite CacheDataset_init_total. cbn zeta.
  rewrite Hps. cbn [mbind result_bind].
  assert (load_all load_fn kw (effective_workers debug_mode num_workers) ps mode
          = Raise e) as ->; [|by eexists].
  unfold load_all. destruct (parallel _).
  - pose proof Hus as ->%map_result_Ok. cbn [mbind result_bind].
    by apply (add_items_not_iterable mode Hm [] us j u).
  - by apply (load_and_add_not_iterable load_fn kw mode Hm [] ps us j u).
Qed.

Lemma CacheDataset_extend_not_iterable_witness :
  ∃ h',
    CacheDataset_init false no_dirs CacheDataset (PathList 0%nat)
      (λ p _, Ok (VInt 3)) "extend" None false [] two_paths
    = (Raise (TypeError "'int' object is not iterable"), h').
Proof.
  apply (CacheDataset_extend_not_iterable false no_dirs CacheDataset
           (PathList 0%nat) (λ p _, Ok (VInt 3)) "extend" None false []
           two_paths [VStr "a"; VStr "b"] [VInt 3; VInt 3] 0%nat (VInt 3));
    [reflexivity | reflexivity | repeat constructor | reflexivity | reflexivity |].
  intros j' u' Hlt. lia.
Defined.

(** ** [LazyDataset]: construction and item access *)

Lemma read_list_alloc (h : heap) (c : klass) (attrs : gmap string ref)
    (kw : kwargs) (r : ref) :
  read_list (h ++ [OInst c attrs; ODict kw]) r = read_list h r.
Proof.
  destruct r as [| | |a]; try done. unfold read_list.
  destruct (decide (a < length h)%nat) as [Hlt|Hge].
  - by rewrite lookup_app_l.
  - rewrite (lookup_ge_None_2 h a) by lia.
    rewrite lookup_app_r by lia.
    by destruct (a - length h)%nat as [|[|n]].
Qed.

Lemma py_sorted_strings (names : list string) (f : string → string) :
  ∃ ps, py_sorted (map (λ p, VStr (f p)) names) = Ok ps.
Proof.
  unfold py_sorted.
  assert (map_result as_path (map (λ p, VStr (f p)) names) = Ok (map f names))
    as ->; [|by eexists].
  induction names as [|n names IH]; simpl; [done|]. by rewrite IH.
Qed.

(** [LazyDataset.__init__] on a list of locations. *)
Lemma LazyDataset_init_list (listdir : string → option (list string)) (c : klass)
    (a : addr) (load_fn : loader) (kw : kwargs) (h : heap) :
  LazyDataset_init listdir c (PathList a) load_fn kw h
  = match l ← read_list h (Loc a); py_sorted l with
    | Ok _ =>
        (Ok (length h),
         h ++ [OInst c (<["data" := Loc a]> (lazy_attrs load_fn (S (length h))));
               ODict kw])
    | Raise e =>
        (Raise e, h ++ [OInst c (lazy_attrs load_fn (S (length h))); ODict kw])
    end.
Proof.
  unfold LazyDataset_init.
  rewrite bind_run, alloc_run. cbn beta iota.
  rewrite bind_run, setattr_at.
  rewrite bind_run, alloc_run. cbn beta iota.
  rewrite <- app_assoc. cbn [app].
  rewrite length_app. cbn [length]. rewrite Nat.add_1_r.
  rewrite bind_run, setattr_at.
  fold (lazy_attrs load_fn (S (length h))).
  rewrite bind_run. unfold LazyDataset_make_dataset.
  rewrite bind_run. unfold mret at 1, M_ret at 1. cbn beta iota.
  rewrite bind_run. unfold reads at 1. rewrite read_list_alloc.
  destruct (read_list h (Loc a)) as [l|e]; cbn [mbind result_bind]; [|done].
  cbn beta iota. rewrite bind_run. unfold reads at 1.
  destruct (py_sorted l) as [ps|e]; [|done].
  cbn beta iota. unfold mret at 1, M_ret at 1. cbn beta iota.
  by rewrite bind_run, setattr_at.
Qed.

(** [LazyDataset.__init__] on a directory. *)
Lemma LazyDataset_init_dir (listdir : string → option (list string)) (c : klass)
    (d : string) (load_fn : loader) (kw : kwargs) (h : heap) :
  LazyDataset_init listdir c (PathDir d) load_fn kw h
  = match listdir d with
    | Some names =>
        (Ok (length h),
         h ++ [OInst c (<["data" := Loc (S (S (length h)))]>
                          (lazy_attrs load_fn (S (length h))));
               ODict kw;
               OList (map (λ p, VStr (os_path_join d p)) names)])
    | None =>
        (Raise (AssertionError (d ++ " is not a valid directory")%string),
         h ++ [OInst c (lazy_attrs load_fn (S (length h))); ODict kw])
    end.
Proof.
  unfold LazyDataset_init.
  rewrite bind_run, alloc_run. cbn beta iota.
  rewrite bind_run, setattr_at.
  rewrite bind_run, alloc_run. cbn beta iota.
  rewrite <- app_assoc. cbn [app].
  rewrite length_app. cbn [length]. rewrite Nat.add_1_r.
  rewrite bind_run, setattr_at.
  fold (lazy_attrs load_fn (S (length h))).
  rewrite bind_run. unfold LazyDataset_make_dataset.
  rewrite bind_run. rewrite bind_run. unfold reads at 1. cbn [list_paths].
  destruct (listdir d) as [names|]; [|done].
  cbn beta iota. rewrite alloc_run. cbn beta iota.
  rewrite <- app_assoc. cbn [app].
  rewrite bind_run. unfold reads at 1.
  rewrite (read_list_at _ (length (h ++ [OInst c (lazy_attrs load_fn (S (length h)));
                                          ODict kw]))
             (map (λ p, VStr (os_path_join d p)) names)).
  2:{ rewrite length_app. cbn [length]. rewrite lookup_app_r by lia.
      by replace (length h + 2 - length h)%nat with 2%nat by lia. }
  cbn beta iota. rewrite bind_run. unfold reads at 1.
  destruct (py_sorted_strings names (os_path_join d)) as [ps ->].
  cbn beta iota. unfold mret at 1, M_ret at 1. cbn beta iota.
  rewrite bind_run, setattr_at. unfold mret, M_ret.
  rewrite length_app. cbn [length]. by rewrite Nat.add_comm.
Qed.

(** A path that is not a directory (and not a list) fails the assertion
    of [_make_dataset], in both loading strategies. *)
Theorem make_dataset_not_a_directory (debug_mode : bool)
    (listdir : string → option (list string)) (c c' : klass) (d : string)
    (load_fn : loader) (mode : string) (num_workers : option Z) (verbose : bool)
    (kw : kwargs) (h : heap) :
  listdir d = None →
  (∃ h',
     CacheDataset_init debug_mode listdir c (PathDir d) load_fn mode num_workers
       verbose kw h
     = (Raise (AssertionError (d ++ " is not a valid directory")%string), h'))
  ∧ (∃ h',
       LazyDataset_init listdir c' (PathDir d) load_fn kw h
       = (Raise (AssertionError (d ++ " is not a valid directory")%string), h')).
Proof.
  intros Hd. split.
  - rewrite CacheDataset_init_total. cbn zeta. unfold sorted_paths. simpl.
    rewrite Hd. cbn [mbind result_bind]. by eexists.
  - rewrite LazyDataset_init_dir, Hd. by eexists.
Qed.

Lemma make_dataset_not_a_directory_witness :
  (∃ h',
     CacheDataset_init false no_dirs CacheDataset (PathDir "data") load_sample
       "append" None false [] []
     = (Raise (AssertionError ("data" ++ " is not a valid directory")%string), h'))
  ∧ (∃ h',
       LazyDataset_init no_dirs LazyDataset (PathDir "data") load_sample [] []
       = (Raise (AssertionError ("data" ++ " is not a valid directory")%string), h')).
Proof.
  apply (make_dataset_not_a_directory false no_dirs CacheDataset LazyDataset
           "data" load_sample "append" None false [] []).
  reflexivity.
Defined.

(** Item access through [LazyDataset.__getitem__] on an instance whose
    three attributes are in place. *)
Lemma getitem_lazy (h : heap) (self : addr) (c : klass) (attrs : gmap string ref)
    (load_fn : loader) (la ka : addr) (l : list value) (kw : kwargs) (i : Z) :
  h !! self = Some (OInst c attrs) →
  class_getitem c = LazyDataset_getitem_fn →
  attrs !! "_load_fn" = Some (Fun load_fn) →
  attrs !! "data" = Some (Loc la) → h !! la = Some (OList l) →
  attrs !! "_load_kwargs" = Some (Loc ka) → h !! ka = Some (ODict kw) →
  getitem h self i = (x ← py_index l i; load_fn x kw).
Proof.
  intros Hself Hc Hf Hd Hl Hk Hkw. unfold getitem.
  rewrite (instance_at _ _ _ _ Hself). cbn [mbind result_bind]. rewrite Hc.
  unfold LazyDataset_getitem. rewrite !(getattr_at _ _ _ _ _ Hself), Hf, Hd, Hk.
  cbn [mbind result_bind]. rewrite (read_list_at _ _ _ Hl).
  cbn [mbind result_bind]. rewrite (read_kwargs_at _ _ _ Hkw).
  by destruct (py_index l i).
Qed.

Lemma lazy_attrs_data (load_fn : loader) (ka : addr) (r : ref) (name : string) :
  name ≠ "data" →
  (<["data" := r]> (lazy_attrs load_fn ka)) !! name = lazy_attrs load_fn ka !! name.
Proof. intros Hn. by apply lookup_insert_ne. Qed.

(** A [LazyDataset] keeps the locations in the order they were given or
    listed and loads at access: its length is the number of locations, and
    item [i] is the loader applied to location [i] and the stored keyword
    arguments (an index out of range raises [IndexError] before the loader
    is called).  Construction does not call the loader: it succeeds for
    every loader. *)
Theorem LazyDataset_loads_at_access (listdir : string → option (list string))
    (c : klass) (path : path_arg) (load_fn : loader) (kw : kwargs) (h : heap)
    (l ps : list value) :
  class_getitem c = LazyDataset_getitem_fn →
  list_paths listdir h path = Ok l →
  py_sorted l = Ok ps →
  ∃ self h',
    LazyDataset_init listdir c path load_fn kw h = (Ok self, h')
    ∧ len h' self = Ok (length l)
    ∧ ∀ i, getitem h' self i = (x ← py_index l i; load_fn x kw).
Proof.
  intros Hc Hp Hs. destruct path as [a|d]; simpl in Hp.
  - rewrite LazyDataset_init_list, Hp. cbn [mbind result_bind]. rewrite Hs.
    eexists _, _. split; [done|].
    assert (h !! a = Some (OList l)) as Ha.
    { unfold read_list in Hp. by destruct (h !! a) as [[]|]; simplify_eq. }
    set (attrs := <["data" := Loc a]> (lazy_attrs load_fn (S (length h)))).
    assert ((h ++ [OInst c attrs; ODict kw]) !! length h = Some (OInst c attrs))
      as Hself by by apply list_lookup_middle.
    assert ((h ++ [OInst c attrs; ODict kw]) !! a = Some (OList l)) as Hl
      by by apply lookup_app_l_Some.
    assert ((h ++ [OInst c attrs; ODict kw]) !! S (length h) = Some (ODict kw))
      as Hkw.
    { rewrite lookup_app_r by lia.
      by replace (S (length h) - length h)%nat with 1%nat by lia. }
    split.
    + apply len_data. unfold data_of. rewrite (getattr_at _ _ _ _ _ Hself).
      unfold attrs. rewrite lookup_insert_eq. cbn [mbind result_bind].
      by apply read_list_at.
    + intros i.
      by apply (getitem_lazy _ _ c attrs load_fn a (S (length h)) l kw i).
  - rewrite LazyDataset_init_dir.
    destruct (listdir d) as [names|]; [|done]. injection Hp as <-.
    eexists _, _. split; [done|].
    set (l := map (λ p, VStr (os_path_join d p)) names).
    set (attrs := <["data" := Loc (S (S (length h)))]>
                    (lazy_attrs load_fn (S (length h)))).
    assert ((h ++ [OInst c attrs; ODict kw; OList l]) !! length h
            = Some (OInst c attrs)) as Hself by by apply list_lookup_middle.
    assert ((h ++ [OInst c attrs; ODict kw; OList l]) !! S (length h)
            = Some (ODict kw)) as Hkw.
    { rewrite lookup_app_r by lia.
      by replace (S (length h) - length h)%nat with 1%nat by lia. }
    assert ((h ++ [OInst c attrs; ODict kw; OList l]) !! S (S (length h))
            = Some (OList l)) as Hl.
    { rewrite lookup_app_r by lia.
      by replace (S (S (length h)) - length h)%nat with 2%nat by lia. }
    split.
    + apply len_data. unfold data_of. rewrite (getattr_at _ _ _ _ _ Hself).
      unfold attrs. rewrite lookup_insert_eq. cbn [mbind result_bind].
      by apply read_list_at.
    + intros i.
      by apply (getitem_lazy _ _ c attrs load_fn (S (S (length h)))
                  (S (length h)) l kw i).
Qed.

Lemma LazyDataset_loads_at_access_witness :
  ∃ self h',
    LazyDataset_init no_dirs LazyDataset (PathList 0%nat) load_sample [] two_paths
    = (Ok self, h')
    ∧ len h' self = Ok (length [VStr "b"; VStr "a"])
    ∧ ∀ i, getitem h' self i
           = (x ← py_index [VStr "b"; VStr "a"] i; load_sample x []).
Proof.
  apply (LazyDataset_loads_at_access no_dirs LazyDataset (PathList 0%nat)
           load_sample [] two_paths [VStr "b"; VStr "a"] [VStr "a"; VStr "b"]);
    reflexivity.
Defined.

(** A [LazyDataset] built from a list keeps that very list as its [data]:
    what the caller later puts into the list is what the dataset holds. *)
Theorem LazyDataset_aliases_path_list (listdir : string → option (list string))
    (c : klass) (a : addr) (load_fn : loader) (kw : kwargs) (h : heap)
    (l ps : list value) :
  h !! a = Some (OList l) →
  py_sorted l = Ok ps →
  ∃ self h',
    LazyDataset_init listdir c (PathList a) load_fn kw h = (Ok self, h')
    ∧ getattr h' self "data" = Ok (Loc a)
    ∧ ∀ l', data_of (<[a := OList l']> h') self = Ok l'.
Proof.
  intros Ha Hs. pose proof (lookup_lt_Some _ _ _ Ha) as Hlt.
  rewrite LazyDataset_init_list, (read_list_at _ _ _ Ha).
  cbn [mbind result_bind]. rewrite Hs. eexists _, _. split; [done|].
  set (attrs := <["data" := Loc a]> (lazy_attrs load_fn (S (length h)))).
  assert ((h ++ [OInst c attrs; ODict kw]) !! length h = Some (OInst c attrs))
    as Hself by by apply list_lookup_middle.
  split.
  - rewrite (getattr_at _ _ _ _ _ Hself). unfold attrs.
    by rewrite lookup_insert_eq.
  - intros l'. unfold data_of.
    rewrite (getattr_at _ _ c attrs).
    2:{ rewrite list_lookup_insert_ne by lia. done. }
    unfold attrs. rewrite lookup_insert_eq. cbn [mbind result_bind].
    apply read_list_at. apply list_lookup_insert_eq.
    rewrite length_app. lia.
Qed.

Lemma LazyDataset_aliases_path_list_witness :
  ∃ self h',
    LazyDataset_init no_dirs LazyDataset (PathList 0%nat) load_sample [] two_paths
    = (Ok self, h')
    ∧ getattr h' self "data" = Ok (Loc 0%nat)
    ∧ ∀ l', data_of (<[0%nat := OList l']> h') self = Ok l'.
Proof.
  apply (LazyDataset_aliases_path_list no_dirs LazyDataset 0%nat load_sample []
           two_paths [VStr "b"; VStr "a"] [VStr "a"; VStr "b"]); reflexivity.
Defined.

(** A [CacheDataset] built from a list holds a list of its own: what the
    caller later puts into the list of locations does not change the
    samples of the dataset. *)
Theorem CacheDataset_owns_data (debug_mode : bool)
    (listdir : string → option (list string)) (c : klass) (a : addr)
    (load_fn : loader) (mode : string) (num_workers : option Z) (verbose : bool)
    (kw : kwargs) (h h' : heap) (self : addr) :
  CacheDataset_init debug_mode listdir c (PathList a) load_fn mode num_workers
    verbose kw h
  = (Ok self, h') →
  ∀ l', data_of (<[a := OList l']> h') self = data_of h' self.
Proof.
  rewrite CacheDataset_init_total. cbn zeta. unfold sorted_paths.
  cbn [list_paths].
  destruct (read_list h (Loc a)) as [l|e] eqn:Hl; cbn [mbind result_bind]; [|done].
  assert (a < length h)%nat as Hlt.
  { unfold read_list in Hl. destruct (h !! a) eqn:Ha; [|done].
    by apply lookup_lt_Some in Ha. }
  destruct (py_sorted l) as [ps|e]; cbn [mbind result_bind]; [|done].
  destruct (load_all _ _ _ _ _) as [data|e]; [|done].
  intros [= <- <-] l'. rewrite CacheDataset_final_data.
  set (attrs := <["data" := Loc (S (S (length h)))]> _).
  unfold data_of. rewrite (getattr_at _ _ c attrs).
  2:{ rewrite list_lookup_insert_ne by lia. by apply list_lookup_middle. }
  unfold attrs. rewrite lookup_insert_eq. cbn [mbind result_bind].
  apply read_list_at. rewrite list_lookup_insert_ne by lia.
  rewrite lookup_app_r by lia.
  by replace (S (S (length h)) - length h)%nat with 2%nat by lia.
Qed.

Lemma CacheDataset_owns_data_witness :
  data_of
    (<[0%nat := OList [VStr "c"]]>
       (CacheDataset_init false no_dirs CacheDataset (PathList 0%nat) load_sample
          "append" (Some 0) false [] two_paths).2) 1%nat
  = data_of
      (CacheDataset_init false no_dirs CacheDataset (PathList 0%nat) load_sample
         "append" (Some 0) false [] two_paths).2 1%nat.
Proof.
  apply (CacheDataset_owns_data false no_dirs CacheDataset 0%nat load_sample
           "append" (Some 0) false [] two_paths).
  reflexivity.
Defined.

(** ** [IDManager]: what the lookups return *)

Lemma find_loop_found (get : Z → result value) (id_key id : string) (n : nat)
    (idx i : Z) :
  find_loop get (Ok id_key) id n idx = Ok i →
  ∃ sample, get i = Ok sample ∧ subscript sample id_key = Ok (VStr id).
Proof.
  revert idx. induction n as [|n IH]; intros idx; simpl; [done|].
  destruct (get idx) as [sample|e] eqn:Hget; [|by destruct e].
  destruct (subscript sample id_key) as [v|e] eqn:Hv; cbn [mbind result_bind];
    [|done].
  destruct (eq_str v id) eqn:Heq; [|apply IH].
  intros [= <-]. apply eq_str_true in Heq. subst v. by exists sample.
Qed.

Lemma cache_loop_lookup (get : Z → result value) (id_key : string) (n : nat)
    (idx : Z) (m m' : gmap hkey Z) (key : hkey) (i : Z) :
  cache_loop get (Ok id_key) n idx m = Ok m' →
  m' !! key = Some i →
  m !! key = Some i
  ∨ ∃ sample, get i = Ok sample ∧ sample_key sample id_key = Ok key.
Proof.
  revert idx m. induction n as [|n IH]; intros idx m; simpl; [done|].
  destruct (get idx) as [sample|e] eqn:Hget.
  - destruct (subscript sample id_key) as [v|e] eqn:Hv; cbn [mbind result_bind];
      [|done].
    destruct (as_key v) as [k|e] eqn:Hk; cbn [mbind result_bind]; [|done].
    intros Hm' Hi. destruct (IH _ _ Hm' Hi) as [Hin|Hs]; [|by right].
    destruct (decide (k = key)) as [->|Hne].
    + rewrite lookup_insert_eq in Hin. injection Hin as <-. right.
      exists sample. split; [done|]. unfold sample_key. by rewrite Hv.
    + rewrite lookup_insert_ne in Hin by done. by left.
  - destruct e; try done. intros [= <-] Hi. by left.
Qed.

(** [get_sample_by_id] returns a sample that carries the ID: whenever it
    returns [s] for [id], [s[id_key] == id], with the ID cache and without
    it. *)
Theorem get_sample_by_id_carries_id (h h1 : heap) (self : addr)
    (id_key id : string) (cache_ids : bool) (s : value) :
  IDManager_init self id_key cache_ids h = (Ok (), h1) →
  IDManager_get_sample_by_id h1 self id = Ok s →
  subscript s id_key = Ok (VStr id).
Proof.
  intros Hinit. unfold IDManager_get_sample_by_id.
  destruct (IDManager_init_frame _ _ _ _ _ Hinit) as (Hget & Hbound & Hkey).
  destruct cache_ids.
  - destruct (IDManager_init_inv _ _ _ _ _ Hinit)
      as (c & attrs & Hself & m & Hm & ->).
    pose proof (lookup_lt_Some _ _ _ Hself) as Hlt.
    set (attrs1 := <["_cached_ids" := Loc (length h)]> (id_attrs attrs id_key)).
    fold attrs1 in Hget.
    unfold IDManager_get_index_by_id.
    rewrite (getattr_at _ _ c attrs1)
      by apply (frame_self h self c attrs attrs1 [m] Hself).
    assert (attrs1 !! "_cached_ids" = Some (Loc (length h))) as ->
      by apply lookup_insert_eq.
    cbn [mbind result_bind].
    rewrite lookup_app_r by by rewrite length_insert.
    rewrite length_insert, Nat.sub_diag. cbn [lookup list_lookup].
    destruct (m !! KStr id) as [idx|] eqn:Hidx; cbn [mbind result_bind]; [|done].
    rewrite Hget. intros Hs.
    destruct (cache_loop_lookup _ _ _ _ _ _ _ _ Hm Hidx) as [Hin|(s' & Hs' & Hk)];
      [by rewrite lookup_empty in Hin|].
    rewrite Hs in Hs'. injection Hs' as <-. unfold sample_key in Hk.
    destruct (subscript s id_key) as [v|e]; cbn [mbind result_bind] in Hk; [|done].
    apply as_key_str in Hk. by subst v.
  - rewrite (get_index_by_id_plain _ _ _ _ _ Hinit).
    destruct (find_loop _ _ _ _ _) as [idx|e] eqn:Hidx; cbn [mbind result_bind];
      [|done].
    rewrite Hget. intros Hs.
    destruct (find_loop_found _ _ _ _ _ _ Hidx) as (s' & Hs' & Hv).
    rewrite Hs in Hs'. by injection Hs' as <-.
Qed.

Lemma get_sample_by_id_carries_id_witness :
  subscript (VDict [("id", VStr "a"); ("data", VInt 0)]) "id" = Ok (VStr "a").
Proof.
  apply (get_sample_by_id_carries_id id_base
           (IDManager_init 1%nat "id" true id_base).2 1%nat "id" "a" true);
    reflexivity.
Defined.

(** When several samples carry the same ID, the lookup through the cache
    gives the index of the last of them and the linear scan the index of
    the first. *)
Theorem get_index_by_id_last_and_first (h h1 h2 : heap) (self : addr)
    (id_key id : string) (vs : list value) (first last : nat) :
  IDManager_init self id_key true h = (Ok (), h1) →
  IDManager_init self id_key false h = (Ok (), h2) →
  dataset_ids h self id_key = Ok vs →
  vs !! first = Some (VStr id) →
  (∀ j, (j < first)%nat → vs !! j ≠ Some (VStr id)) →
  vs !! last = Some (VStr id) →
  (∀ j, (last < j)%nat → vs !! j ≠ Some (VStr id)) →
  IDManager_get_index_by_id h1 self id = Ok (Z.of_nat last)
  ∧ IDManager_get_index_by_id h2 self id = Ok (Z.of_nat first).
Proof.
  intros H1 H2 Hvs Hf Hfirst Hl Hlast. split.
  - destruct (get_index_by_id_cached _ _ id _ _ _ H1 Hvs) as (ks & Hks & ->).
    rewrite (fill_lookup_last _ _ _ _ last); [done| |].
    + by apply (map_as_key_lookup vs).
    + intros j Hlt Hj%(map_as_key_lookup vs); [|done]. by apply (Hlast j).
  - rewrite (get_index_by_id_plain _ _ _ _ _ H2).
    by rewrite (find_loop_first _ _ _ _ _ vs first Hvs Hf).
Qed.

Lemma get_index_by_id_last_and_first_witness :
  IDManager_get_index_by_id (IDManager_init 1%nat "id" true id_same_base).2
    1%nat "x" = Ok (Z.of_nat 1)
  ∧ IDManager_get_index_by_id (IDManager_init 1%nat "id" false id_same_base).2
      1%nat "x" = Ok (Z.of_nat 0).
Proof.
  apply (get_index_by_id_last_and_first id_same_base _ _ 1%nat "id" "x"
           [VStr "x"; VStr "x"] 0%nat 1%nat);
    [reflexivity | reflexivity | reflexivity | reflexivity | | reflexivity |].
  - intros j Hlt. lia.
  - intros [|[|[|j]]] Hlt; simpl; (lia || done || discriminate).
Defined.

(** [IDManager.__init__] in one step on an instance. *)
Lemma IDManager_init_total (self : addr) (id_key : string) (cache_ids : bool)
    (h : heap) (c : klass) (attrs : gmap string ref) :
  h !! self = Some (OInst c attrs) →
  IDManager_init self id_key cache_ids h
  = if cache_ids then
      match cache_loop (getitem h self) (Ok id_key) (iteration_bound h self) 0 ∅
      with
      | Ok m =>
          (Ok (),
           <[self := OInst c (<["_cached_ids" := Loc (length h)]>
                                (id_attrs attrs id_key))]> h ++ [OIdMap m])
      | Raise e => (Raise e, <[self := OInst c (id_attrs attrs id_key)]> h)
      end
    else (Ok (), <[self := OInst c (id_attrs attrs id_key)]> h).
Proof.
  intros Hself. pose proof (lookup_lt_Some _ _ _ Hself) as Hlt.
  unfold IDManager_init. rewrite bind_run. unfold setattr at 1. rewrite Hself.
  rewrite bind_run. unfold setattr at 1.
  rewrite list_lookup_insert_eq by done. rewrite list_insert_insert_eq.
  fold (id_attrs attrs id_key).
  assert (<[self := OInst c (id_attrs attrs id_key)]> h !! self
          = Some (OInst c (id_attrs attrs id_key))) as Hb
    by by apply list_lookup_insert_eq.
  destruct cache_ids; [|done].
  unfold IDManager_cache_ids. rewrite bind_run. unfold reads at 1.
  unfold read_id_key. rewrite (getattr_at _ _ _ _ _ Hb).
  rewrite id_attrs_id_key. cbn [mbind result_bind].
  assert (∀ i, getitem (<[self := OInst c (id_attrs attrs id_key)]> h) self i
               = getitem h self i) as Hget.
  { intros i.
    rewrite <- (app_nil_r (<[self := OInst c (id_attrs attrs id_key)]> h)).
    apply (frame_getitem h self c attrs _ []); try done;
      by apply id_attrs_other. }
  assert (iteration_bound (<[self := OInst c (id_attrs attrs id_key)]> h) self
          = iteration_bound h self) as Hbound.
  { rewrite <- (app_nil_r (<[self := OInst c (id_attrs attrs id_key)]> h)).
    apply (frame_iteration_bound h self c attrs _ []); try done;
      by apply id_attrs_other. }
  rewrite Hbound, (cache_loop_ext _ _ _ Hget).
  destruct (cache_loop _ _ _ _ _) as [m|e]; [|done].
  cbn beta iota. rewrite bind_run, alloc_run. cbn beta iota.
  unfold setattr. rewrite (lookup_app_l_Some _ _ _ _ Hb).
  rewrite length_insert.
  rewrite insert_app_l by by rewrite length_insert.
  by rewrite list_insert_insert_eq.
Qed.

Lemma cache_loop_raise (get : Z → result value) (id_key : string) (e : exn)
    (sample : value) (j n : nat) (idx : Z) (m : gmap hkey Z) :
  (∀ j', (j' < j)%nat →
     ∃ s k, get (idx + Z.of_nat j') = Ok s ∧ sample_key s id_key = Ok k) →
  get (idx + Z.of_nat j) = Ok sample →
  sample_key sample id_key = Raise e →
  (j < n)%nat →
  cache_loop get (Ok id_key) n idx m = Raise e.
Proof.
  revert n idx m. induction j as [|j IH]; intros n idx m Hpre Hget He Hn;
    (destruct n as [|n]; [lia|]); simpl.
  - rewrite Z.add_0_r in Hget. rewrite Hget. unfold sample_key in He.
    destruct (subscript sample id_key) as [v|e']; cbn [mbind result_bind] in *;
      [|by injection He as ->].
    by rewrite He.
  - destruct (Hpre 0%nat) as (s & k & Hs & Hk); [lia|].
    rewrite Z.add_0_r in Hs. rewrite Hs. unfold sample_key in Hk.
    destruct (subscript s id_key) as [v|e']; cbn [mbind result_bind] in *;
      [|done].
    rewrite Hk. cbn [mbind result_bind]. apply IH; [| |done|lia].
    + intros j' Hlt. destruct (Hpre (S j')) as (s' & k' & Hs' & Hk'); [lia|].
      exists s', k'. split; [|done]. rewrite <- Hs'. f_equal. lia.
    + rewrite <- Hget. f_equal. lia.
Qed.

(** With [cache_ids=True] the construction reads the ID of every sample:
    the first sample without an entry under [id_key], or with an ID that
    cannot be a dictionary key, makes [IDManager.__init__] raise that
    error.  With [cache_ids=False] the same dataset is constructed: the
    samples are not looked at. *)
Theorem IDManager_init_reads_every_id (h : heap) (self : addr) (c : klass)
    (attrs : gmap string ref) (id_key : string) (j : nat) (sample : value)
    (e : exn) :
  h !! self = Some (OInst c attrs) →
  (∀ j', (j' < j)%nat →
     ∃ s k, getitem h self (Z.of_nat j') = Ok s ∧ sample_key s id_key = Ok k) →
  getitem h self (Z.of_nat j) = Ok sample →
  sample_key sample id_key = Raise e →
  (∃ h1, IDManager_init self id_key true h = (Raise e, h1))
  ∧ (∃ h2, IDManager_init self id_key false h = (Ok (), h2)).
Proof.
  intros Hself Hpre Hget He. rewrite !(IDManager_init_total _ _ _ _ _ _ Hself).
  split; [|by eexists].
  rewrite (cache_loop_raise _ id_key e sample j); [by eexists|done..|].
  destruct (getitem_at_bound h self) as [e' He'].
  destruct (decide (j < iteration_bound h self)%nat) as [|Hge]; [done|].
  assert (∃ n, iteration_bound h self = S n) as [n Hn].
  { unfold iteration_bound. destruct (len h self); by eexists. }
  rewrite Hn in He', Hge.
  replace (Z.of_nat (S n) - 1) with (Z.of_nat n) in He' by lia.
  destruct (decide (n = j)) as [->|Hne]; [by rewrite Hget in He'|].
  destruct (Hpre n) as (s & k & Hs & _); [lia|]. by rewrite Hs in He'.
Qed.

Lemma IDManager_init_reads_every_id_witness :
  (∃ h1, IDManager_init 1%nat "name" true id_base = (Raise (KeyError "name"), h1))
  ∧ (∃ h2, IDManager_init 1%nat "name" false id_base = (Ok (), h2)).
Proof.
  apply (IDManager_init_reads_every_id id_base 1%nat CacheDatasetID
           (<["data" := Loc 3%nat]> (cache_attrs false load_sample (Some 0) false
                                       2%nat))
           "name" 0%nat (VDict [("id", VStr "a"); ("data", VInt 0)])).
  - reflexivity.
  - intros j' Hlt. lia.
  - reflexivity.
  - reflexivity.
Defined.

(** ** [RandomValuePerChannel.forward]: the other branch, errors and the
    random state *)

Section Forward.

Context {rng_state ambient rand chan : Type}.
Variable random_sampler : rng_state * ambient → rand * (rng_state * ambient).
Variable augment_fn : chan → rand → chan.
Variable augment_fn_tensor : list chan → rand → list chan.
Variable uninit : chan.

Lemma shared_value_keys_spec (v : rand) (keys : list string)
    (data : gmap string (list chan)) :
  (∀ k, k ∈ keys → is_Some (data !! k)) →
  ∃ out,
    shared_value_keys augment_fn_tensor v keys data = Ok out
    ∧ ∀ k, out !! k
           = Nat.iter (count_occ string_dec keys k) (λ x, augment_fn_tensor x v)
             <$> data !! k.
Proof.
  revert data. induction keys as [|key rest IH]; intros data Hin.
  - exists data. split; [done|]. intros k. simpl. by destruct (data !! k).
  - destruct (Hin key) as [x Hx]; [by left|].
    cbn [shared_value_keys]. rewrite Hx.
    destruct (IH (<[key := augment_fn_tensor x v]> data)) as (out & Hrun & Hout).
    { intros k Hk. destruct (decide (key = k)) as [->|Hne].
      - rewrite lookup_insert_eq. by eexists.
      - rewrite lookup_insert_ne by done. apply Hin. by right. }
    exists out. split; [done|]. intros k. rewrite Hout.
    destruct (decide (key = k)) as [->|Hne].
    + rewrite count_occ_cons_eq by done.
      rewrite lookup_insert_eq, Hx. cbn [fmap option_fmap option_map]. f_equal.
      by rewrite Nat.iter_succ_r.
    + rewrite count_occ_cons_neq by done. by rewrite lookup_insert_ne.
Qed.

(** Without [per_channel] the sampler is read once, before the loop: the
    random state advances by one draw however many keys there are, every
    configured key is transformed with that one value (once per occurrence
    in [keys]), and the other entries of the batch are handed back as they
    came. *)
Theorem forward_shared_value (keys : list string) (data : gmap string (list chan))
    (s : rng_state * ambient) :
  (∀ k, k ∈ keys → is_Some (data !! k)) →
  ∃ out,
    forward random_sampler augment_fn augment_fn_tensor uninit false keys data s
    = Ok (out, (random_sampler s).2)
    ∧ ∀ k, out !! k
           = Nat.iter (count_occ string_dec keys k)
               (λ x, augment_fn_tensor x (random_sampler s).1)
             <$> data !! k.
Proof.
  intros Hin. unfold forward. destruct (random_sampler s) as [v s'].
  destruct (shared_value_keys_spec v keys data Hin) as (out & -> & Hout).
  by exists out.
Qed.

Lemma per_channel_keys_missing (seed : rng_state) (keys : list string)
    (data : gmap string (list chan)) (s : rng_state * ambient) (j : nat) (k : string) :
  keys !! j = Some k → data !! k = None →
  (∀ j' k', (j' < j)%nat → keys !! j' = Some k' → is_Some (data !! k')) →
  per_channel_keys random_sampler augment_fn uninit seed keys data s
  = Raise (KeyError k).
Proof.
  revert data s j. induction keys as [|key rest IH]; intros data s j Hj Hk Hpre;
    [done|].
  cbn [per_channel_keys]. destruct j as [|j].
  - injection Hj as ->. by rewrite Hk.
  - destruct (Hpre 0%nat key) as [x Hx]; [lia|done|]. rewrite Hx.
    destruct (channel_loop _ _ _ _ _ _ _) as [out s'].
    assert (key ≠ k) as Hne by (intros ->; by rewrite Hk in Hx).
    apply (IH _ _ j Hj).
    + by rewrite lookup_insert_ne.
    + intros j' k' Hlt Hk'. destruct (decide (key = k')) as [->|Hne'].
      * rewrite lookup_insert_eq. by eexists.
      * rewrite lookup_insert_ne by done. apply (Hpre (S j') k'); [lia|done].
Qed.

Lemma shared_value_keys_missing (v : rand) (keys : list string)
    (data : gmap string (list chan)) (j : nat) (k : string) :
  keys !! j = Some k → data !! k = None →
  (∀ j' k', (j' < j)%nat → keys !! j' = Some k' → is_Some (data !! k')) →
  shared_value_keys augment_fn_tensor v keys data = Raise (KeyError k).
Proof.
  revert data j. induction keys as [|key rest IH]; intros data j Hj Hk Hpre;
    [done|].
  cbn [shared_value_keys]. destruct j as [|j].
  - injection Hj as ->. by rewrite Hk.
  - destruct (Hpre 0%nat key) as [x Hx]; [lia|done|]. rewrite Hx.
    assert (key ≠ k) as Hne by (intros ->; by rewrite Hk in Hx).
    apply (IH _ j Hj).
    + by rewrite lookup_insert_ne.
    + intros j' k' Hlt Hk'. destruct (decide (key = k')) as [->|Hne'].
      * rewrite lookup_insert_eq. by eexists.
      * rewrite lookup_insert_ne by done. apply (Hpre (S j') k'); [lia|done].
Qed.

(** A configured key that the batch does not hold stops [forward] with
    the [KeyError] of the first such key, in both branches; no batch is
    returned, also when the keys before it were transformed. *)
Theorem forward_missing_key (per_channel : bool) (keys : list string)
    (data : gmap string (list chan)) (s : rng_state * ambient) (j : nat) (k : string) :
  keys !! j = Some k → data !! k = None →
  (∀ j' k', (j' < j)%nat → keys !! j' = Some k' → is_Some (data !! k')) →
  forward random_sampler augment_fn augment_fn_tensor uninit per_channel keys data s
  = Raise (KeyError k).
Proof.
  intros Hj Hk Hpre. unfold forward. destruct per_channel.
  - by apply (per_channel_keys_missing _ _ _ _ j).
  - destruct (random_sampler s) as [v s'].
    by rewrite (shared_value_keys_missing v keys data j k).
Qed.

Lemma per_channel_keys_present (seed : rng_state) (keys : list string)
    (data out : gmap string (list chan)) (s s' : rng_state * ambient) :
  per_channel_keys random_sampler augment_fn uninit seed keys data s = Ok (out, s') →
  ∀ k, k ∈ keys → is_Some (data !! k).
Proof.
  revert data s. induction keys as [|key rest IH]; intros data s Hrun k Hk;
    [by apply elem_of_nil in Hk|].
  cbn [per_channel_keys] in Hrun. destruct (data !! key) as [x|] eqn:Hx; [|done].
  destruct (channel_loop _ _ _ _ _ _ _) as [y s1].
  apply elem_of_cons in Hk as [->|Hk]; [by eexists|].
  pose proof (IH _ _ Hrun k Hk) as Hin.
  destruct (decide (key = k)) as [->|Hne]; [by eexists|].
  by rewrite lookup_insert_ne in Hin.
Qed.

Lemma per_channel_keys_inv (seed : rng_state) (keys : list string)
    (data out : gmap string (list chan)) (s s' : rng_state * ambient) :
  per_channel_keys random_sampler augment_fn uninit seed keys data s = Ok (out, s') →
  (∀ k, length <$> out !! k = length <$> data !! k)
  ∧ match last keys with
    | Some k => ∃ x a, data !! k = Some x
                       ∧ s' = state_after random_sampler (seed, a) (length x)
    | None => s' = s
    end.
Proof.
  revert data s. induction keys as [|key rest IH]; intros data s.
  - by intros [= <- <-].
  - cbn [per_channel_keys]. destruct (data !! key) as [x|] eqn:Hx; [|done].
    rewrite channel_loop_all. unfold set_rng_state.
    set (y := per_channel_transform random_sampler augment_fn (seed, s.2) x).
    assert (length y = length x) as Hy by apply per_channel_transform_length.
    assert (∀ k, length <$> (<[key := y]> data) !! k = length <$> data !! k)
      as Hlen.
    { intros k. destruct (decide (key = k)) as [->|Hne].
      - rewrite lookup_insert_eq, Hx. simpl. by rewrite Hy.
      - by rewrite lookup_insert_ne. }
    intros Hrun. destruct (IH _ _ Hrun) as [Hout Hlast]. split.
    + intros k. by rewrite Hout, Hlen.
    + destruct rest as [|key' rest'].
      * simpl in *. exists x, s.2. by rewrite Hx.
      * assert (last (key :: key' :: rest') = last (key' :: rest')) as -> by done.
        destruct (last (key' :: rest')) as [k|] eqn:Hk';
          [|by apply last_None in Hk'].
        destruct Hlast as (z & a & Hz & ->).
        pose proof (Hlen k) as Hk. rewrite Hz in Hk.
        destruct (data !! k) as [z'|]; simpl in Hk; [|done].
        injection Hk as Hk. exists z', a. by rewrite Hk.
Qed.

(** With [per_channel] the state of torch's generator is put back to the
    captured one before every key: when [forward] returns, the generator
    has advanced by the draws of the last key only (one per channel), not
    by the draws of all keys; with no key nothing has moved.  Only the
    sampler's effect on the generator matters here, not the values it
    yields. *)
Theorem forward_per_channel_state (f : rng_state → rand * rng_state)
    (keys : list string) (data out : gmap string (list chan))
    (s s' : rng_state * ambient) :
  (∀ t a, (random_sampler (t, a)).2.1 = (f t).2) →
  forward random_sampler augment_fn augment_fn_tensor uninit true keys data s
  = Ok (out, s') →
  get_rng_state s'
  = match last keys with
    | Some k => match data !! k with
                | Some x => state_after f (get_rng_state s) (length x)
                | None => get_rng_state s
                end
    | None => get_rng_state s
    end
  ∧ (keys = [] → s' = s).
Proof.
  intros Hf. unfold forward. intros [_ Hlast]%per_channel_keys_inv. split.
  - destruct (last keys) as [k|]; [|by subst].
    destruct Hlast as (x & a & -> & ->).
    by apply state_after_torch.
  - by intros ->.
Qed.

(** With [per_channel] the batch that [forward] returns has the keys of
    the batch it was given, and under every key as many channels as
    before. *)
Theorem forward_per_channel_shape (keys : list string)
    (data out : gmap string (list chan)) (s s' : rng_state * ambient) :
  forward random_sampler augment_fn augment_fn_tensor uninit true keys data s
  = Ok (out, s') →
  ∀ k, length <$> out !! k = length <$> data !! k.
Proof. unfold forward. by intros [H _]%per_channel_keys_inv. Qed.

End Forward.

Lemma forward_shared_value_witness :
  ∃ out,
    forward (λ s : nat * nat, (s.1, (S s.1, S s.2))) Nat.add
      (λ x v, map (Nat.add v) x) 0%nat false ["data"; "seg"]
      (<["data" := [10; 20]%nat]> (<["seg" := [1; 2; 3]%nat]> ∅)) (5%nat, 0%nat)
    = Ok (out, ((λ s : nat * nat, (s.1, (S s.1, S s.2))) (5%nat, 0%nat)).2)
    ∧ ∀ k, out !! k
           = Nat.iter (count_occ string_dec ["data"; "seg"] k)
               (λ x, (λ x v, map (Nat.add v) x) x
                       ((λ s : nat * nat, (s.1, (S s.1, S s.2))) (5%nat, 0%nat)).1)
             <$> (<["data" := [10; 20]%nat]> (<["seg" := [1; 2; 3]%nat]> ∅)
                    : gmap string (list nat)) !! k.
Proof.
  apply (forward_shared_value (λ s : nat * nat, (s.1, (S s.1, S s.2))) Nat.add
           (λ x v, map (Nat.add v) x) 0%nat ["data"; "seg"]
           (<["data" := [10; 20]%nat]> (<["seg" := [1; 2; 3]%nat]> ∅))
           (5%nat, 0%nat)).
  intros k Hk. apply elem_of_cons in Hk as [->|Hk]; [by eexists|].
  apply elem_of_cons in Hk as [->|Hk]; [by eexists|].
  by apply elem_of_nil in Hk.
Defined.

Lemma forward_missing_key_witness :
  forward (λ s : nat * nat, (s.1, (S s.1, S s.2))) Nat.add
    (λ x v, map (Nat.add v) x) 0%nat true ["data"; "label"; "seg"]
    (<["data" := [10; 20]%nat]> (<["seg" := [1; 2; 3]%nat]> ∅)) (5%nat, 0%nat)
  = Raise (KeyError "label").
Proof.
  apply (forward_missing_key (λ s : nat * nat, (s.1, (S s.1, S s.2))) Nat.add
           (λ x v, map (Nat.add v) x) 0%nat true ["data"; "label"; "seg"]
           (<["data" := [10; 20]%nat]> (<["seg" := [1; 2; 3]%nat]> ∅))
           (5%nat, 0%nat) 1%nat "label"); [reflexivity | reflexivity |].
  intros [|j'] k' Hlt Hk'; [|lia]. injection Hk' as <-. by eexists.
Defined.

Lemma forward_per_channel_state_witness :
  get_rng_state (8%nat, 5%nat)
  = match last ["seg"; "data"] with
    | Some k =>
        match (<["data" := [10; 20]%nat]> (<["seg" := [1; 2; 3]%nat]> ∅)
                 : gmap string (list nat)) !! k with
        | Some x =>
            state_after (λ t : nat, (t, S t)) (get_rng_state (6%nat, 0%nat))
              (length x)
        | None => get_rng_state (6%nat, 0%nat)
        end
    | None => get_rng_state (6%nat, 0%nat)
    end
  ∧ (["seg"; "data"] = [] → (8%nat, 5%nat) = (6%nat, 0%nat)).
Proof.
  apply (forward_per_channel_state (λ s : nat * nat, (s.1, (S s.1, S s.2)))
           Nat.add (λ x v, map (Nat.add v) x) 0%nat (λ t : nat, (t, S t))
           ["seg"; "data"]
           (<["data" := [10; 20]%nat]> (<["seg" := [1; 2; 3]%nat]> ∅))
           (<["data" := [16; 27]%nat]> (<["seg" := [7; 9; 11]%nat]> ∅))
           (6%nat, 0%nat) (8%nat, 5%nat)).
  - intros t a. reflexivity.
  - by vm_compute.
Defined.

Lemma forward_per_channel_shape_witness :
  length <$> (<["data" := [16; 27]%nat]> (<["seg" := [7; 9; 11]%nat]> ∅)
                : gmap string (list nat)) !! "seg"
  = length <$> (<["data" := [10; 20]%nat]> (<["seg" := [1; 2; 3]%nat]> ∅)
                  : gmap string (list nat)) !! "seg".
Proof.
  apply (forward_per_channel_shape (λ s : nat * nat, (s.1, (S s.1, S s.2)))
           Nat.add (λ x v, map (Nat.add v) x) 0%nat ["seg"; "data"]
           (<["data" := [10; 20]%nat]> (<["seg" := [1; 2; 3]%nat]> ∅))
           (<["data" := [16; 27]%nat]> (<["seg" := [7; 9; 11]%nat]> ∅))
           (6%nat, 0%nat) (8%nat, 5%nat)).
  by vm_compute.
Defined.

(** ** The ID cache is built once *)

(** A lookup through the ID cache reads the instance and the cache and
    nothing else: whatever is later stored in another object, the list of
    samples included, [get_index_by_id] answers as it did after
    construction. *)
Theorem get_index_by_id_cache_is_static (h h1 : heap) (self : addr)
    (id_key id : string) (a : addr) (o : object) :
  IDManager_init self id_key true h = (Ok (), h1) →
  a ≠ self → a ≠ length h →
  IDManager_get_index_by_id (<[a := o]> h1) self id
  = IDManager_get_index_by_id h1 self id.
Proof.
  intros (c & attrs & Hself & m & Hm & ->)%IDManager_init_inv Ha Hc.
  pose proof (lookup_lt_Some _ _ _ Hself) as Hlt.
  set (attrs1 := <["_cached_ids" := Loc (length h)]> (id_attrs attrs id_key)).
  set (h1 := <[self := OInst c attrs1]> h ++ [OIdMap m]).
  assert (h1 !! self = Some (OInst c attrs1)) as Hs1
    by apply (frame_self h self c attrs attrs1 [m] Hself).
  assert (h1 !! length h = Some (OIdMap m)) as Hc1.
  { unfold h1. rewrite lookup_app_r by by rewrite length_insert.
    by rewrite length_insert, Nat.sub_diag. }
  unfold IDManager_get_index_by_id.
  rewrite (getattr_at _ _ c attrs1) by by rewrite list_lookup_insert_ne.
  rewrite (getattr_at _ _ c attrs1) by done.
  assert (attrs1 !! "_cached_ids" = Some (Loc (length h))) as ->
    by apply lookup_insert_eq.
  cbn [mbind result_bind]. by rewrite list_lookup_insert_ne.
Qed.

Lemma get_index_by_id_cache_is_static_witness :
  IDManager_get_index_by_id
    (<[3%nat := OList []]> (IDManager_init 1%nat "id" true id_base).2) 1%nat "b"
  = IDManager_get_index_by_id (IDManager_init 1%nat "id" true id_base).2 1%nat "b".
Proof.
  apply (get_index_by_id_cache_is_static id_base _ 1%nat "id" "b" 3%nat (OList []));
    [reflexivity | lia | by vm_compute].
Defined.
